(** * util/kustomize/kustomize.go: a shallow embedding and its properties

    The Go source drives the [kustomize] command-line tool: it detects the
    tool's version, applies a fixed pipeline of [kustomize edit] invocations,
    merges patches into the kustomization file, runs [kustomize build] and
    scans the produced objects for container images.

    Everything the package obtains from other packages (process execution,
    the file system, YAML, credentials, the semver library's prerelease
    rules, ...) is gathered in the class [Collaborators]; the definitions
    below are the functions of [kustomize.go] itself, with the process-wide
    state ([semVer], the file system, the executed commands) passed
    explicitly. *)

From Stdlib Require Import ZArith NArith String Ascii List Lia DecimalString.
From stdpp Require Import base option list gmap strings fin_maps sorting.

Set Warnings "-register-all".
Set Default Proof Using "Type".

Local Open Scope string_scope.
Local Open Scope list_scope.

(** ** Go values *)

(** An [error] value is represented by its message. *)
Definition error := string.

(** [Image] represents a Docker image in the format NAME[:TAG]. *)
Definition Image := string.

(** The double quote character, used by error messages of [strconv]. *)
Definition quote : string := String (ascii_of_nat 34) EmptyString.

(** [os/exec.Cmd], restricted to the fields the package sets. *)
Record Cmd := mkCmd {
  Path : string;
  Args : list string;
  Dir : string;
  Env : list string
}.

(** [exec.Command(name, arg...)]: [Args] holds the name followed by the
    arguments; [Dir] and [Env] are unset. *)
Definition Command (name : string) (arg : list string) : Cmd :=
  {| Path := name; Args := name :: arg; Dir := ""; Env := [] |}.

Definition withDir (c : Cmd) (d : string) : Cmd :=
  {| Path := Path c; Args := Args c; Dir := d; Env := Env c |}.

Definition withEnv (c : Cmd) (e : list string) : Cmd :=
  {| Path := Path c; Args := Args c; Dir := Dir c; Env := e |}.

(** [semver.Version] of Masterminds/semver: three unsigned 64-bit segments,
    the prerelease and metadata texts, and the text it was parsed from. *)
Record Version := mkVersion {
  major : N;
  minor : N;
  patch : N;
  pre : string;
  metadata : string;
  original : string
}.

(** Modelled from the spec: the patch type [v1alpha1.KustomizePatch] is
    declared in pkg/apis/application/v1alpha1, outside the sources at hand;
    the spec calls the entries of the patch list opaque patch documents. *)
Inductive KustomizePatch := OpaquePatch (document : string).

(** Modelled from the spec: [v1alpha1.KustomizeReplica], a name and a target
    count that is either an integer or a text to be resolved
    ([intstr.IntOrString]). *)
Inductive IntOrString := FromInt (i : Z) | FromString (s : string).
Record KustomizeReplica := mkReplica {
  replicaName : string;
  replicaCount : IntOrString
}.

(** The dynamically typed values ([any]) the package handles: what
    [yaml.Unmarshal] and [kube.SplitYAML] produce (nil, booleans, numbers,
    strings, [[]any], [map[string]any]) and the typed patches that [Build]
    stores into the kustomization map. A [float64] is kept as its 64-bit
    pattern. *)
Inductive any : Type :=
| VNil
| VBool (b : bool)
| VInt (i : Z)
| VFloat (bits : Z)
| VString (s : string)
| VSlice (l : list any)
| VMap (m : gmap string any)
| VPatch (p : KustomizePatch)
| VPatches (ps : list KustomizePatch).

(** [BuildOpts] *)
Record BuildOpts := mkBuildOpts {
  KubeVersion : string;
  APIVersions : list string
}.

(** Modelled from the spec: the fields of [v1alpha1.ApplicationSourceKustomize]
    that [Build] reads (the customization specification). *)
Record ApplicationSourceKustomize := mkOpts {
  NamePrefix : string;
  NameSuffix : string;
  Images : list string;
  Replicas : list KustomizeReplica;
  CommonLabels : gmap string string;
  ForceCommonLabels : bool;
  LabelWithoutSelector : bool;
  LabelIncludeTemplates : bool;
  CommonAnnotations : gmap string string;
  ForceCommonAnnotations : bool;
  CommonAnnotationsEnvsubst : bool;
  Namespace : string;
  Patches : list KustomizePatch;
  Components : list string;
  IgnoreMissingComponents : bool
}.

(** [v1alpha1.KustomizeOptions]: only [BuildOptions] is read. *)
Record KustomizeOptions := mkKustomizeOptions {
  BuildOptions : string
}.

(** ** Collaborators

    Functions of other packages, taken as parameters. [Sys] is the state of
    everything outside the process (file system, installed tools). *)
Class Collaborators := {
  Sys : Type;
  Creds : Type;
  EnvVars : Type;
  (* strings / unicode: the parts that decode UTF-8 *)
  TrimFunc_IsSpace : string → string;
  TrimRightFunc_IsSpace : string → string;
  Replace_emptyOld : string → string → string;
  Fields : string → list string;
  (* fmt: the %s form of a value that is not a string *)
  Sprintf_s_other : any → string;
  (* Masterminds/semver *)
  comparePrerelease : string → string → Z;
  validatePrerelease : string → option error;
  validateMetadata : string → option error;
  (* util/exec *)
  executil_Run : Cmd → Sys → (error + string) * Sys;
  GetCommandArgsToLog : Cmd → string;
  (* os, path/filepath *)
  os_Environ : Sys → list string;
  os_Stat : string → Sys → error + Z;
  os_ReadFile : string → Sys → error + string;
  os_WriteFile : string → string → Z → Sys → option error * Sys;
  os_OpenRoot : string → Sys → option error * Sys;
  Root_Stat : string → string → Sys → option error;
  io_Close_Root : string → bool → Sys → Sys;
  filepath_Join : string → string → string;
  filepath_Rel : string → string → error + string;
  (* sigs.k8s.io/yaml, gitops-engine *)
  yaml_Unmarshal : string → error + any;
  yaml_Marshal : gmap string any → error + string;
  kube_SplitYAML : string → error + list (gmap string any);
  (* v1alpha1 *)
  Env_Environ : EnvVars → list string;
  Env_Envsubst : option EnvVars → string → string;
  GetIntCount : KustomizeReplica → error + Z;
  (* util/git, util/cert, net/url, util/proxy *)
  Creds_nil : Creds;
  Creds_Environ : Creds → Sys → (error + list string) * Sys;
  Closer_Close : Creds → Sys → Sys;
  IsHTTPSURL : string → bool;
  url_Parse : string → error + string;
  GetCertBundlePathForRepository : string → Sys → error + string;
  proxy_UpsertEnv : Cmd → string → string → list string
}.

(** ** Package [strings] of the Go standard library *)
Module strings.

Definition HasPrefix (s prefix : string) : bool := String.prefix prefix s.

Definition HasSuffix (s suffix : string) : bool :=
  String.prefix (String.rev suffix) (String.rev s).

Definition TrimPrefix (s prefix : string) : string :=
  if HasPrefix s prefix
  then substring (String.length prefix) (String.length s - String.length prefix) s
  else s.

Definition TrimSuffix (s suffix : string) : string :=
  if HasSuffix s suffix
  then substring 0 (String.length s - String.length suffix) s
  else s.

(** [Index(s, substr)]: [None] stands for -1. *)
Definition Index (s substr : string) : option nat := index 0 substr s.

Definition Contains (s substr : string) : bool :=
  match Index s substr with Some _ => true | None => false end.

(** The table [asciiSpace]: tab, newline, vertical tab, form feed,
    carriage return, space. *)
Definition asciiSpace (c : ascii) : bool :=
  let n := N_of_ascii c in
  ((9 <=? n) && (n <=? 13) || (n =? 32))%N.

(** [utf8.RuneSelf] is 0x80. *)
Definition RuneSelf : N := 128.

(** First loop of [TrimSpace]: skips ASCII spaces; the flag tells that a
    non-ASCII byte was met, at which the Unicode-aware path takes over. *)
Fixpoint trimStart (s : string) : bool * string :=
  match s with
  | EmptyString => (false, EmptyString)
  | String c s' =>
      if (RuneSelf <=? N_of_ascii c)%N then (true, s)
      else if asciiSpace c then trimStart s'
      else (false, s)
  end.

Section WithCollaborators.
Context `{Collaborators}.

Definition TrimSpace (s : string) : string :=
  let '(slow, s1) := trimStart s in
  if slow then TrimFunc_IsSpace s1
  else
    let '(slow', r) := trimStart (String.rev s1) in
    if slow' then TrimRightFunc_IsSpace (String.rev r)
    else String.rev r.

(** Replacement of the non-overlapping instances of a non-empty [old],
    from the left; [skip] counts the bytes of the instance being
    replaced that are still to be dropped. *)
Fixpoint replaceFrom (old new : string) (skip : nat) (s : string) : string :=
  match s with
  | EmptyString => EmptyString
  | String c s' =>
      match skip with
      | S k => replaceFrom old new k s'
      | O =>
          if String.prefix old s
          then new +:+ replaceFrom old new (String.length old - 1) s'
          else String c (replaceFrom old new 0 s')
      end
  end.

(** [ReplaceAll(s, old, new)]: returns [s] when [old == new]; an empty
    [old] matches at every rune boundary, which is left to the
    collaborator that decodes UTF-8. *)
Definition ReplaceAll (s old new : string) : string :=
  if String.eqb old new then s
  else if String.eqb old "" then Replace_emptyOld s new
  else replaceFrom old new 0 s.

End WithCollaborators.
End strings.

(** ** Package [semver] (Masterminds/semver/v3) and the version pattern *)
Module semver.

Definition isDigit (c : ascii) : bool :=
  let n := N_of_ascii c in ((48 <=? n) && (n <=? 57))%N.

(** The class [[0-9A-Za-z\-]]. *)
Definition isIdent (c : ascii) : bool :=
  let n := N_of_ascii c in
  (isDigit c || ((65 <=? n) && (n <=? 90)) || ((97 <=? n) && (n <=? 122))
   || (n =? 45))%N.

(** Longest prefix of digits, and what follows it. *)
Fixpoint digits (s : string) : string * string :=
  match s with
  | String c t =>
      if isDigit c then let '(d, r) := digits t in (String c d, r)
      else (EmptyString, s)
  | EmptyString => (EmptyString, EmptyString)
  end.

(** [(\.[0-9]+)?], greedy: the matched text (empty when the group does not
    take part) and the rest. *)
Definition dotDigits (s : string) : string * string :=
  match s with
  | String "."%char t =>
      let '(d, r) := digits t in
      if String.eqb d "" then (EmptyString, s) else (String "."%char d, r)
  | _ => (EmptyString, s)
  end.

(** The rest of a dot-separated chain of non-empty runs of
    [[0-9A-Za-z\-]], greedy, read after a first character of the class. *)
Fixpoint identRest (s : string) : string * string :=
  match s with
  | String c t =>
      if isIdent c then let '(a, r) := identRest t in (String c a, r)
      else if Ascii.eqb c "."%char then
        match t with
        | String c' _ =>
            if isIdent c' then let '(a, r) := identRest t in (String c a, r)
            else (EmptyString, s)
        | EmptyString => (EmptyString, s)
        end
      else (EmptyString, s)
  | EmptyString => (EmptyString, EmptyString)
  end.

(** The optional group made of a tag, [-] or [+], and a dot-separated
    chain of non-empty runs of [[0-9A-Za-z\-]]: the chain (the inner
    group, empty when the group does not take part) and the rest. *)
Definition tagged (tag : ascii) (s : string) : string * string :=
  match s with
  | String c (String c' _ as t) =>
      if Ascii.eqb c tag && isIdent c' then identRest t else (EmptyString, s)
  | _ => (EmptyString, s)
  end.

(** The submatches of the version pattern that are read: the whole match
    and the groups 1, 2, 3, 5 and 8. *)
Record Submatch := mkSubmatch {
  m0 : string;
  m1 : string;
  m2 : string;
  m3 : string;
  m5 : string;
  m8 : string
}.

Definition withTag (tag : string) (g : string) : string :=
  if String.eqb g "" then EmptyString else tag +:+ g.

(** A match of
    [v?([0-9]+)(\.[0-9]+)?(\.[0-9]+)?(-(...))?(\+(...))?]
    starting at the first byte of [s], with what follows it. *)
Definition matchHere (s : string) : option (Submatch * string) :=
  let '(v, s1) :=
    match s with
    | String c t => if Ascii.eqb c "v"%char then ("v", t) else (EmptyString, s)
    | EmptyString => (EmptyString, s)
    end in
  let '(g1, r1) := digits s1 in
  if String.eqb g1 "" then None
  else
    let '(g2, r2) := dotDigits r1 in
    let '(g3, r3) := dotDigits r2 in
    let '(g5, r4) := tagged "-"%char r3 in
    let '(g8, r5) := tagged "+"%char r4 in
    Some ({| m0 := v +:+ g1 +:+ g2 +:+ g3 +:+ withTag "-" g5 +:+ withTag "+" g8;
             m1 := g1; m2 := g2; m3 := g3; m5 := g5; m8 := g8 |}, r5).

(** [semverRegex.FindStringSubmatch]: the leftmost match; [None] for the
    nil slice. *)
Fixpoint FindStringSubmatch (s : string) : option Submatch :=
  match matchHere s with
  | Some (m, _) => Some m
  | None =>
      match s with
      | String _ t => FindStringSubmatch t
      | EmptyString => None
      end
  end.

Fixpoint parseDigits (acc : N) (s : string) : N :=
  match s with
  | EmptyString => acc
  | String c t => parseDigits (acc * 10 + (N_of_ascii c - 48))%N t
  end.

(** [strconv.ParseUint(s, 10, 64)] on a text of digits. *)
Definition ParseUint (s : string) : error + N :=
  let n := parseDigits 0 s in
  if (n <? 2 ^ 64)%N then inr n
  else inl ("strconv.ParseUint: parsing " +:+ quote +:+ s +:+ quote
            +:+ ": value out of range").

Definition segment (m : string) : error + N :=
  if String.eqb m "" then inr 0%N
  else
    match ParseUint (strings.TrimPrefix m ".") with
    | inl err => inl ("Error parsing version segment: " +:+ err)
    | inr n => inr n
    end.

Definition compareSegment (v o : N) : Z :=
  if (v <? o)%N then (-1)%Z else if (o <? v)%N then 1%Z else 0%Z.

Section WithCollaborators.
Context `{Collaborators}.

(** [semver.NewVersion], the coercing parser: the anchored pattern, the
    three segments as unsigned 64-bit numbers, then the library's checks
    of a non-empty prerelease and of non-empty metadata. *)
Definition NewVersion (v : string) : error + Version :=
  match matchHere v with
  | Some (m, EmptyString) =>
      match ParseUint (m1 m) with
      | inl err => inl ("Error parsing version segment: " +:+ err)
      | inr ma =>
          match segment (m2 m) with
          | inl err => inl err
          | inr mi =>
              match segment (m3 m) with
              | inl err => inl err
              | inr pa =>
                  let sv := {| major := ma; minor := mi; patch := pa;
                               pre := m5 m; metadata := m8 m;
                               original := v |} in
                  match (if String.eqb (pre sv) "" then None
                         else validatePrerelease (pre sv)) with
                  | Some err => inl err
                  | None =>
                      match (if String.eqb (metadata sv) "" then None
                             else validateMetadata (metadata sv)) with
                      | Some err => inl err
                      | None => inr sv
                      end
                  end
              end
          end
      end
  | _ => inl "Invalid Semantic Version"
  end.

(** [Version.Compare] *)
Definition Compare (v o : Version) : Z :=
  let d := compareSegment (major v) (major o) in
  if negb (d =? 0)%Z then d
  else
    let d := compareSegment (minor v) (minor o) in
    if negb (d =? 0)%Z then d
    else
      let d := compareSegment (patch v) (patch o) in
      if negb (d =? 0)%Z then d
      else
        let ps := pre v in
        let po := pre o in
        if String.eqb ps "" && String.eqb po "" then 0%Z
        else if String.eqb ps "" then 1%Z
        else if String.eqb po "" then (-1)%Z
        else comparePrerelease ps po.

Definition LessThan (v o : Version) : bool := (Compare v o <? 0)%Z.

End WithCollaborators.

(** The constants the package obtains with [semver.MustParse]. *)
Definition release (ma mi pa : N) (text : string) : Version :=
  {| major := ma; minor := mi; patch := pa; pre := ""; metadata := "";
     original := text |}.
Definition v3_7_0 : Version := release 3 7 0 "v3.7.0".
Definition v3_8_5 : Version := release 3 8 5 "v3.8.5".
Definition v5_3_0 : Version := release 5 3 0 "v5.3.0".

End semver.

(** ** The package state and its elementary steps *)

Definition KustomizationNames : list string :=
  ["kustomization.yaml"; "kustomization.yml"; "Kustomization"].

(** [IsKustomization] checks if the given file name matches any known
    kustomization file names. *)
Definition IsKustomization (path : string) : bool :=
  existsb (fun kustomization => String.eqb path kustomization) KustomizationNames.

Definition unknownVersion : Version := semver.release 99 99 99 "v99.99.99".

Definition semVerRegexNoMatch (verStr : string) : error :=
  "expected string that includes semver formatted version but got: '"
  +:+ verStr +:+ "'".

(** The order of Go on strings: byte by byte. *)
Definition string_le (a b : string) : Prop := String.leb a b = true.

#[global] Instance string_le_dec : RelDecision string_le.
Proof. intros a b. unfold string_le. apply _. Defined.

Section Kustomize.
Context `{Collaborators}.

(** The struct [kustomize]. *)
Record kustomize := mkKustomize {
  repoRoot : string;
  path : string;
  creds : Creds;
  repo : string;
  binaryPath : string;
  proxy : string;
  noProxy : string
}.

(** The zero value [&kustomize{}]. *)
Definition zeroKustomize : kustomize :=
  {| repoRoot := ""; path := ""; creds := Creds_nil; repo := "";
     binaryPath := ""; proxy := ""; noProxy := "" |}.

(** What a call can observe and change: the outside world [sys], the
    commands handed to [executil.Run] so far, the package variable
    [semVer] (nil is [None]) and the log lines written. *)
Record World := mkWorld {
  sys : Sys;
  invocations : list Cmd;
  semVer : option Version;
  logs : list string
}.

Definition setSys (s : Sys) (w : World) : World :=
  {| sys := s; invocations := invocations w; semVer := semVer w; logs := logs w |}.

Definition setSemVer (v : Version) (w : World) : World :=
  {| sys := sys w; invocations := invocations w; semVer := Some v; logs := logs w |}.

(** [log.Warnf] and [log.Debugf] *)
Definition logf (line : string) (w : World) : World :=
  {| sys := sys w; invocations := invocations w; semVer := semVer w;
     logs := logs w ++ [line] |}.

(** [executil.Run(cmd)] *)
Definition Run (cmd : Cmd) (w : World) : (error + string) * World :=
  let '(r, s) := executil_Run cmd (sys w) in
  (r, {| sys := s; invocations := invocations w ++ [cmd];
         semVer := semVer w; logs := logs w |}).

Definition getBinaryPath (k : kustomize) : string :=
  if negb (String.eqb (binaryPath k) "") then binaryPath k else "kustomize".

Definition versionWithBinaryPath (k : kustomize) (w : World)
  : (error + string) * World :=
  let executable := getBinaryPath k in
  let cmd := Command executable ["version"; "--short"] in
  let '(r, w) := Run cmd w in
  match r with
  | inl err => (inl ("could not get kustomize version: " +:+ err), w)
  | inr version =>
      let version := strings.TrimSpace version in
      let version := strings.TrimPrefix version "{" in
      let version := strings.TrimSuffix version "}" in
      let version := strings.TrimSpace version in
      let version := strings.ReplaceAll version "  " " " in
      let version := strings.TrimPrefix version "kustomize/" in
      (inr version, w)
  end.

(** [Version] *)
Definition Version_ (w : World) : (error + string) * World :=
  versionWithBinaryPath zeroKustomize w.

(** [getSemver] returns parsed kustomize version *)
Definition getSemver (k : kustomize) (w : World) : (error + Version) * World :=
  let '(r, w) := versionWithBinaryPath k w in
  match r with
  | inl err => (inl err, w)
  | inr verStr =>
      match semver.FindStringSubmatch verStr with
      | None => (inl (semVerRegexNoMatch verStr), w)
      | Some semverMatches => (semver.NewVersion (semver.m0 semverMatches), w)
      end
  end.

(** [getSemverSafe] returns parsed kustomize version; if the version cannot
    be parsed it falls back to the latest one, v99.99.99. The result is
    kept in [semVer] and reused by later calls. *)
Definition getSemverSafe (k : kustomize) (w : World) : Version * World :=
  match semVer w with
  | Some v => (v, w)
  | None =>
      let '(r, w) := getSemver k w in
      match r with
      | inl err =>
          (unknownVersion,
           logf ("Failed to parse kustomize version: " +:+ err)
                (setSemVer unknownVersion w))
      | inr ver => (ver, setSemVer ver w)
      end
  end.

(** The loop of [mapToEditAddArgs] for versions below v3.8.5: one argument
    that joins the pairs. *)
Definition joinStep (arg : string) (kv : string * string) : string :=
  (if negb (String.eqb arg "") then arg +:+ "," else arg)
  +:+ (kv.1 +:+ ":" +:+ kv.2).

(** kustomize v3.8.5 patch release introduced a breaking change in
    "edit add <label/annotation>" commands. The version is the one of the
    default binary ([&kustomize{}]). *)
Definition mapToEditAddArgs (val : gmap string string) (w : World)
  : list string * World :=
  let '(ver, w) := getSemverSafe zeroKustomize w in
  if semver.LessThan ver semver.v3_8_5 then
    let arg := fold_left joinStep (map_to_list val) EmptyString in
    ([] ++ [arg], w)
  else
    (fold_left (fun args kv => args ++ [kv.1 +:+ ":" +:+ kv.2])
               (map_to_list val) [], w).

(** *** The image scan *)

(** [fmt.Sprintf("%s", image)] *)
Definition Sprintf_s (image : any) : string :=
  match image with
  | VString s => s
  | _ => Sprintf_s_other image
  end.

Definition isContainersKey (k : string) : bool :=
  String.eqb k "containers" || String.eqb k "initContainers".

(** [getImages], on the value that holds the map: the loop over the keys
    appends to [images]; so do the loops over the elements of a slice. *)
Fixpoint getImagesOf (object : any) : list Image :=
  match object with
  | VMap entries =>
      map_fold
        (fun k v images =>
           match v with
           | VSlice l =>
               if isContainersKey k then
                 fold_left
                   (fun images obj =>
                      match obj with
                      | VMap mapObj =>
                          match mapObj !! "image" with
                          | Some image => images ++ [Sprintf_s image]
                          | None => images
                          end
                      | _ => images
                      end) l images
               else
                 fold_left
                   (fun images vi =>
                      match vi with
                      | VMap _ => images ++ getImagesOf vi
                      | _ => images
                      end) l images
           | VMap _ => images ++ getImagesOf v
           | _ => images
           end) [] entries
  | _ => []
  end.

Definition getImages (object : gmap string any) : list Image :=
  getImagesOf (VMap object).

(** [sort.Strings]: increasing order of the byte strings. *)
Definition sort_Strings (l : list string) : list string :=
  merge_sort string_le l.

Definition getImageParameters (objs : list (gmap string any)) : list Image :=
  let images := fold_left (fun images obj => images ++ getImages obj) objs [] in
  sort_Strings images.

(** *** The state of one call of [Build]

    Besides the world, a call has its local [commands] (the commands that
    were run as part of this build) and the functions it deferred. A step
    either goes on with a value or leaves [Build] with an error; the state
    reached is kept in both cases. *)
Record BuildState := mkBuildState {
  world : World;
  commands : list string;
  deferred : list (Sys → Sys)
}.

Definition M (A : Type) : Type := BuildState → (error + A) * BuildState.

Definition ret {A} (a : A) : M A := fun st => (inr a, st).

Definition fail {A} (e : error) : M A := fun st => (inl e, st).

Definition bind {A B} (m : M A) (f : A → M B) : M B :=
  fun st =>
    match m st with
    | (inl e, st') => (inl e, st')
    | (inr a, st') => f a st'
    end.

Notation "x <- m ;; f" := (bind m (fun x => f))
  (at level 100, m at next level, right associativity).
Notation "m ;;; f" := (bind m (fun _ => f))
  (at level 100, right associativity).

Definition when (b : bool) (m : M unit) : M unit :=
  if b then m else ret tt.

(** A step on the world that cannot fail. *)
Definition liftW {A} (f : World → A * World) : M A :=
  fun st =>
    let '(a, w) := f (world st) in
    (inr a, {| world := w; commands := commands st; deferred := deferred st |}).

(** A step on the world whose error ends the build. *)
Definition tryW {A} (f : World → (error + A) * World) : M A :=
  fun st =>
    let '(r, w) := f (world st) in
    (r, {| world := w; commands := commands st; deferred := deferred st |}).

(** A read of the outside world. *)
Definition readSys {A} (f : Sys → A) : M A :=
  fun st => (inr (f (sys (world st))), st).

(** A call that changes the outside world. *)
Definition onSys {A} (f : Sys → A * Sys) : M A :=
  liftW (fun w => let '(a, s) := f (sys w) in (a, setSys s w)).

Definition fromResult {A} (r : error + A) : M A :=
  match r with inl e => fail e | inr a => ret a end.

Definition logM (line : string) : M unit :=
  liftW (fun w => (tt, logf line w)).

(** [commands = append(commands, entry)] *)
Definition appendCommand (entry : string) : M unit :=
  fun st =>
    (inr tt, {| world := world st; commands := commands st ++ [entry];
                deferred := deferred st |}).

(** [defer f()] *)
Definition defer (f : Sys → Sys) : M unit :=
  fun st =>
    (inr tt, {| world := world st; commands := commands st;
                deferred := f :: deferred st |}).

(** The recurring three lines: the command is recorded in [commands], then
    run; its failure ends the build. *)
Definition runLogged (cmd : Cmd) : M string :=
  appendCommand (GetCommandArgsToLog cmd) ;;;
  tryW (Run cmd).

(** [kustomize edit ...] in the directory [k.path] *)
Definition editCommand (k : kustomize) (args : list string) : Cmd :=
  withDir (Command (getBinaryPath k) args) (path k).

(** *** The steps of [Build], in the order of the source *)

Definition stepNamePrefix (k : kustomize) (opts : ApplicationSourceKustomize) : M unit :=
  when (negb (String.eqb (NamePrefix opts) ""))
    (runLogged (editCommand k ["edit"; "set"; "nameprefix"; "--"; NamePrefix opts]) ;;;
     ret tt).

Definition stepNameSuffix (k : kustomize) (opts : ApplicationSourceKustomize) : M unit :=
  when (negb (String.eqb (NameSuffix opts) ""))
    (runLogged (editCommand k ["edit"; "set"; "namesuffix"; "--"; NameSuffix opts]) ;;;
     ret tt).

Definition stepImages (k : kustomize) (opts : ApplicationSourceKustomize)
    (envVars : option EnvVars) : M unit :=
  when (0 <? length (Images opts))%nat
    (let args :=
       fold_left (fun args image => args ++ [Env_Envsubst envVars image])
                 (Images opts) ["edit"; "set"; "image"] in
     runLogged (editCommand k args) ;;;
     ret tt).

(** [fmt.Sprintf("%s=%d", replica.Name, count)] *)
Definition replicaArg (name : string) (count : Z) : string :=
  name +:+ "=" +:+ NilZero.string_of_int (Z.to_int count).

(** The loop over [opts.Replicas]: the first count that cannot be resolved
    ends the build. *)
Fixpoint replicaArgs (replicas : list KustomizeReplica) (args : list string)
  : error + list string :=
  match replicas with
  | [] => inr args
  | replica :: rest =>
      match GetIntCount replica with
      | inl err => inl err
      | inr count => replicaArgs rest (args ++ [replicaArg (replicaName replica) count])
      end
  end.

Definition stepReplicas (k : kustomize) (opts : ApplicationSourceKustomize) : M unit :=
  when (0 <? length (Replicas opts))%nat
    (args <- fromResult (replicaArgs (Replicas opts) ["edit"; "set"; "replicas"]) ;;
     runLogged (editCommand k args) ;;;
     ret tt).

Definition flag (b : bool) (name : string) (args : list string) : list string :=
  if b then args ++ [name] else args.

Definition stepCommonLabels (k : kustomize) (opts : ApplicationSourceKustomize)
    (envVars : option EnvVars) : M unit :=
  when (0 <? size (CommonLabels opts))%nat
    (let args := ["edit"; "add"; "label"] in
     let args := flag (ForceCommonLabels opts) "--force" args in
     let args := flag (LabelWithoutSelector opts) "--without-selector" args in
     let args := flag (LabelIncludeTemplates opts) "--include-templates" args in
     let commonLabels := Env_Envsubst envVars <$> CommonLabels opts in
     pairs <- liftW (mapToEditAddArgs commonLabels) ;;
     runLogged (editCommand k (args ++ pairs)) ;;;
     ret tt).

Definition stepCommonAnnotations (k : kustomize) (opts : ApplicationSourceKustomize)
    (envVars : option EnvVars) : M unit :=
  when (0 <? size (CommonAnnotations opts))%nat
    (let args := ["edit"; "add"; "annotation"] in
     let args := flag (ForceCommonAnnotations opts) "--force" args in
     let commonAnnotations :=
       if CommonAnnotationsEnvsubst opts
       then Env_Envsubst envVars <$> CommonAnnotations opts
       else CommonAnnotations opts in
     pairs <- liftW (mapToEditAddArgs commonAnnotations) ;;
     runLogged (editCommand k (args ++ pairs)) ;;;
     ret tt).

Definition stepNamespace (k : kustomize) (opts : ApplicationSourceKustomize) : M unit :=
  when (negb (String.eqb (Namespace opts) ""))
    (runLogged (editCommand k ["edit"; "set"; "namespace"; "--"; Namespace opts]) ;;;
     ret tt).

(** [findKustomizeFile] looks for any known kustomization file in the path *)
Definition findKustomizeFile (dir : string) (s : Sys) : string :=
  let fix loop (names : list string) : string :=
    match names with
    | [] => ""
    | file :: rest =>
        match os_Stat (filepath_Join dir file) s with
        | inr _ => file
        | inl _ => loop rest
        end
    end in
  loop KustomizationNames.

(** The [%T] form of a value. *)
Definition typeName (v : any) : string :=
  match v with
  | VNil => "<nil>"
  | VBool _ => "bool"
  | VInt _ => "int64"
  | VFloat _ => "float64"
  | VString _ => "string"
  | VSlice _ => "[]interface {}"
  | VMap _ => "map[string]interface {}"
  | VPatch _ => "v1alpha1.KustomizePatch"
  | VPatches _ => "v1alpha1.KustomizePatches"
  end.

(** The update of the [patches] field of the parsed kustomization: appended
    to a list that is there, set when the key is absent. *)
Definition mergePatches (kMap : gmap string any) (newPatches : list KustomizePatch)
  : error + gmap string any :=
  match kMap !! "patches" with
  | Some patches =>
      match patches with
      | VSlice patchesList =>
          let untypedPatches := VPatch <$> newPatches in
          let patchesList := patchesList ++ untypedPatches in
          inr (<["patches" := VSlice patchesList]> kMap)
      | _ =>
          inl ("expected 'patches' field in kustomization.yaml to be []any, but got "
               +:+ typeName patches)
      end
  | None => inr (<["patches" := VPatches newPatches]> kMap)
  end.

Definition wrap (context : string) {A} (r : error + A) : error + A :=
  match r with
  | inl err => inl (context +:+ ": " +:+ err)
  | inr a => inr a
  end.

Definition patchesCommandEntry : string :=
  "# kustomization.yaml updated with patches. There is no `kustomize edit` command for adding patches. In order to generate the manifests in your local environment, you will need to copy the patches into kustomization.yaml manually.".

Definition stepPatches (k : kustomize) (opts : ApplicationSourceKustomize) : M unit :=
  when (0 <? length (Patches opts))%nat
    (kustFile <- readSys (findKustomizeFile (path k)) ;;
     if String.eqb kustFile "" then
       fail "kustomization file not found in the path"
     else
       let kustomizationPath := filepath_Join (path k) kustFile in
       b <- bind (readSys (os_ReadFile kustomizationPath))
              (fun r => fromResult (wrap "failed to load kustomization.yaml" r)) ;;
       kustomization <-
         fromResult (wrap "failed to unmarshal kustomization.yaml" (yaml_Unmarshal b)) ;;
       match kustomization with
       | VMap kMap =>
           kMap <- fromResult (mergePatches kMap (Patches opts)) ;;
           updatedKustomization <-
             fromResult (wrap "failed to marshal kustomization.yaml after adding patches"
                              (yaml_Marshal kMap)) ;;
           mode <- bind (readSys (os_Stat kustomizationPath))
                     (fun r => fromResult (wrap "failed to stat kustomization.yaml" r)) ;;
           werr <- onSys (os_WriteFile kustomizationPath updatedKustomization mode) ;;
           match werr with
           | Some err =>
               fail ("failed to write kustomization.yaml with updated 'patches' field: "
                     +:+ err)
           | None => appendCommand patchesCommandEntry
           end
       | _ =>
           fail ("expected kustomization.yaml to be type map[string]any, but got "
                 +:+ typeName (VMap ∅))
       end).

Definition componentsNotSupported : error :=
  "kustomize components require kustomize v3.7.0 and above".

(** The loop that keeps the components found under the repository root. *)
Fixpoint foundComponentsLoop (k : kustomize) (components found : list string)
  : M (list string) :=
  match components with
  | [] => ret found
  | c :: rest =>
      match filepath_Rel (repoRoot k) (filepath_Join (path k) c) with
      | inl err => fail ("kustomize components path failed: " +:+ err)
      | inr resolvedPath =>
          serr <- readSys (Root_Stat (repoRoot k) resolvedPath) ;;
          match serr with
          | Some _ =>
              logM (resolvedPath +:+ " component directory does not exist") ;;;
              foundComponentsLoop k rest found
          | None => foundComponentsLoop k rest (found ++ [c])
          end
      end
  end.

Definition stepComponents (k : kustomize) (opts : ApplicationSourceKustomize)
    (env : list string) : M unit :=
  when (0 <? length (Components opts))%nat
    (ver <- liftW (getSemverSafe k) ;;
     if semver.LessThan ver semver.v3_7_0 then fail componentsNotSupported
     else
       foundComponents <-
         (if IgnoreMissingComponents opts then
            oerr <- onSys (os_OpenRoot (repoRoot k)) ;;
            defer (io_Close_Root (repoRoot k) (bool_decide (oerr = None))) ;;;
            match oerr with
            | Some err => fail ("failed to open the repo folder: " +:+ err)
            | None => foundComponentsLoop k (Components opts) []
            end
          else ret (Components opts)) ;;
       let args := ["edit"; "add"; "component"] ++ foundComponents in
       let cmd := withEnv (editCommand k args) env in
       runLogged cmd ;;;
       ret tt).

(** The customization steps, in their fixed order, up to the patches. *)
Definition stepsBeforeComponents (k : kustomize) (opts : ApplicationSourceKustomize)
    (envVars : option EnvVars) : M unit :=
  stepNamePrefix k opts ;;;
  stepNameSuffix k opts ;;;
  stepImages k opts envVars ;;;
  stepReplicas k opts ;;;
  stepCommonLabels k opts envVars ;;;
  stepCommonAnnotations k opts envVars ;;;
  stepNamespace k opts ;;;
  stepPatches k opts.

Definition isHelmEnabled (buildOptions : string) : bool :=
  strings.Contains buildOptions "--enable-helm".

Definition parseKustomizeBuildOptions (k : kustomize) (buildOptions : string)
    (buildOpts : option BuildOpts) (w : World) : list string * World :=
  let buildOptsParams := ["build"; path k] ++ Fields buildOptions in
  match buildOpts with
  | None => (buildOptsParams, w)
  | Some bo =>
      let '(ver, w) := getSemverSafe k w in
      if negb (semver.LessThan ver semver.v5_3_0) && isHelmEnabled buildOptions then
        let buildOptsParams :=
          if negb (String.eqb (KubeVersion bo) "")
          then buildOptsParams ++ ["--helm-kube-version"; KubeVersion bo]
          else buildOptsParams in
        (fold_left (fun params v => params ++ ["--helm-api-versions"; v])
                   (APIVersions bo) buildOptsParams, w)
      else (buildOptsParams, w)
  end.

(** The environment of the build: the process environment, the variables
    of [envVars], those of the credentials and, for an HTTPS repository with
    a configured CA bundle, [GIT_SSL_CAINFO]. *)
Definition buildEnviron (k : kustomize) (envVars : option EnvVars) : M (list string) :=
  env <- readSys os_Environ ;;
  let env := match envVars with
             | Some e => env ++ Env_Environ e
             | None => env
             end in
  environ <- tryW (fun w =>
                     let '(r, s) := Creds_Environ (creds k) (sys w) in
                     (r, setSys s w)) ;;
  defer (Closer_Close (creds k)) ;;;
  environ <-
    (if negb (String.eqb (repo k) "") && IsHTTPSURL (repo k) then
       match url_Parse (repo k) with
       | inl err =>
           logM ("Could not parse URL " +:+ repo k +:+ ": " +:+ err) ;;;
           ret environ
       | inr host =>
           caPath <- readSys (GetCertBundlePathForRepository host) ;;
           match caPath with
           | inl err =>
               logM ("Could not get CA bundle path for " +:+ host +:+ ": " +:+ err) ;;;
               ret environ
           | inr caPath =>
               if String.eqb caPath "" then
                 logM ("No caCert found for repo " +:+ host) ;;;
                 ret environ
               else ret (environ ++ ["GIT_SSL_CAINFO=" +:+ caPath])
           end
       end
     else ret environ) ;;
  ret (env ++ environ).

(** The final [kustomize build], run from the repository root. *)
Definition stepBuild (k : kustomize) (kustomizeOptions : option KustomizeOptions)
    (buildOpts : option BuildOpts) (env : list string) : M (list (gmap string any)) :=
  cmd <-
    (match kustomizeOptions with
     | Some ko =>
         if negb (String.eqb (BuildOptions ko) "") then
           params <- liftW (parseKustomizeBuildOptions k (BuildOptions ko) buildOpts) ;;
           ret (Command (getBinaryPath k) params)
         else ret (Command (getBinaryPath k) ["build"; path k])
     | None => ret (Command (getBinaryPath k) ["build"; path k])
     end) ;;
  let cmd := withEnv cmd env in
  let cmd := withEnv cmd (proxy_UpsertEnv cmd (proxy k) (noProxy k)) in
  let cmd := withDir cmd (repoRoot k) in
  out <- runLogged cmd ;;
  fromResult (kube_SplitYAML out).

(** The body of [Build] up to its last statement: the objects produced;
    the state holds the [commands] recorded so far. *)
Definition buildBody (k : kustomize) (opts : option ApplicationSourceKustomize)
    (kustomizeOptions : option KustomizeOptions) (envVars : option EnvVars)
    (buildOpts : option BuildOpts) : M (list (gmap string any)) :=
  env <- buildEnviron k envVars ;;
  match opts with
  | Some opts =>
      stepsBeforeComponents k opts envVars ;;;
      stepComponents k opts env
  | None => ret tt
  end ;;;
  stepBuild k kustomizeOptions buildOpts env.

(** The four results of [Build]; nil slices are empty lists, a nil error is
    [None]. *)
Record BuildResult := mkBuildResult {
  resObjs : list (gmap string any);
  resImages : list Image;
  resCommands : list string;
  resErr : option error
}.

Definition redact (k : kustomize) (c : string) : string :=
  strings.ReplaceAll c (repoRoot k) ".".

Definition initialState (w : World) : BuildState :=
  {| world := w; commands := []; deferred := [] |}.

(** The deferred calls run when [Build] returns, the last one first. *)
Definition runDeferred (st : BuildState) : World :=
  setSys (fold_left (fun s f => f s) (deferred st) (sys (world st))) (world st).

(** [Build] returns a list of unstructured objects from a [kustomize build]
    command and extract supported parameters. Every [return] on an error is
    [return nil, nil, nil, err]. *)
Definition Build (k : kustomize) (opts : option ApplicationSourceKustomize)
    (kustomizeOptions : option KustomizeOptions) (envVars : option EnvVars)
    (buildOpts : option BuildOpts) (w : World) : BuildResult * World :=
  match buildBody k opts kustomizeOptions envVars buildOpts (initialState w) with
  | (inl err, st) =>
      ({| resObjs := []; resImages := []; resCommands := []; resErr := Some err |},
       runDeferred st)
  | (inr objs, st) =>
      let redactedCommands := map (redact k) (commands st) in
      ({| resObjs := objs; resImages := getImageParameters objs;
          resCommands := redactedCommands; resErr := None |},
       runDeferred st)
  end.

(** The command that asks the tool for its version. *)
Definition versionProbe (k : kustomize) : Cmd :=
  Command (getBinaryPath k) ["version"; "--short"].

(** A state that differs from [st] by log lines only. *)
Definition sameButLogs (st st' : BuildState) : Prop :=
  sys (world st') = sys (world st)
  ∧ invocations (world st') = invocations (world st)
  ∧ semVer (world st') = semVer (world st)
  ∧ commands st' = commands st
  ∧ deferred st' = deferred st.

End Kustomize.

(** ** Specification-level notions *)

(** [Replaced old new s r]: [r] is [s] with the instances of [old] replaced
    by [new], the instances being taken from the left: [s] holds no
    instance and [r] is [s], or [s] is [p ++ old ++ q] where no instance
    starts before the one shown, and [r] is [p ++ new ++ r'] with [r'] the
    replacement in [q]. *)
Inductive Replaced (old new : string) : string → string → Prop :=
| Replaced_none (s : string) :
    (∀ p q, s ≠ p +:+ old +:+ q) → Replaced old new s s
| Replaced_first (p q q' : string) :
    (∀ p' q'', p +:+ old +:+ q = p' +:+ old +:+ q'' →
               (String.length p ≤ String.length p')%nat) →
    Replaced old new q q' →
    Replaced old new (p +:+ old +:+ q) (p +:+ new +:+ q').

(** A text holds a decimal digit. *)
Fixpoint hasDigit (s : string) : bool :=
  match s with
  | EmptyString => false
  | String c t => semver.isDigit c || hasDigit t
  end.




(** One [key:value] pair as an argument of [kustomize edit add]. *)
Definition pairArg (kv : string * string) : string := kv.1 +:+ ":" +:+ kv.2.

(** The output of [kustomize version --short] in the example, for the product name [name]. *)
Definition shortVersionOutput (name : string) : string :=
  "{" +:+ name +:+ "/v3.8.1  2020-07-16T00:58:46Z  }".

Definition v3_8_1 : Version :=
  {| major := 3; minor := 8; patch := 1; pre := ""; metadata := "";
     original := "v3.8.1" |}.

Section Scan.
Context `{Collaborators}.

(** What the spec says of a [containers] or [initContainers] sequence: each
    mapping-shaped element contributes the string form of its [image] field,
    and nothing else is looked at. *)
Definition containerImages (l : list any) : list Image :=
  flat_map
    (fun element =>
       match element with
       | VMap mapObj =>
           match mapObj !! "image" with
           | Some image => [Sprintf_s image]
           | None => []
           end
       | _ => []
       end) l.

(** What the spec says of any other sequence: the scan of its mapping-shaped
    elements. *)
Definition elementImages (l : list any) : list Image :=
  flat_map
    (fun element =>
       match element with
       | VMap mapObj => getImages mapObj
       | _ => []
       end) l.

(** The images one key of a mapping contributes, after the spec. *)
Definition entryImages (k : string) (v : any) : list Image :=
  match v with
  | VSlice l => if isContainersKey k then containerImages l else elementImages l
  | VMap mapObj => getImages mapObj
  | _ => []
  end.

(** The order in which the loop of [getImages] visits the keys of a map. *)
Definition visitOrder (object : gmap string any) : list (string * any) :=
  reverse (map_to_list object).

End Scan.

(** ** A test double of the collaborators

    A small world used for the concrete runs below: the file system is a map
    from paths to contents; an entry under ["$ <command line>"] scripts the
    output of that command and an entry under ["! <command line>"] makes it
    fail. *)
Module Fake.

Definition commandLine (cmd : Cmd) : string := String.concat " " (Args cmd).

Definition run (cmd : Cmd) (s : gmap string string)
  : (error + string) * gmap string string :=
  match s !! ("! " +:+ commandLine cmd) with
  | Some err => (inl err, s)
  | None =>
      match s !! ("$ " +:+ commandLine cmd) with
      | Some out => (inr out, s)
      | None => (inr "", s)
      end
  end.

Definition stat (p : string) (s : gmap string string) : error + Z :=
  match s !! p with
  | Some _ => inr 420%Z
  | None => inl ("stat " +:+ p +:+ ": no such file or directory")
  end.

Definition readFile (p : string) (s : gmap string string) : error + string :=
  match s !! p with
  | Some content => inr content
  | None => inl ("open " +:+ p +:+ ": no such file or directory")
  end.

Definition join (a b : string) : string := a +:+ "/" +:+ b.

(** The two kustomization contents the double can decode. *)
Definition unmarshal (b : string) : error + any :=
  if String.eqb b "patches: [q1, q2]" then
    inr (VMap {[ "patches" := VSlice [VString "q1"; VString "q2"] ]})
  else if String.eqb b "namePrefix: dev-" then
    inr (VMap {[ "namePrefix" := VString "dev-" ]})
  else inl "yaml: cannot decode".

Definition marshal (m : gmap string any) : error + string :=
  inr (String.concat "," (map_to_list m).*1).

Definition intCount (r : KustomizeReplica) : error + Z :=
  match replicaCount r with
  | FromInt i => inr i
  | FromString _ => inl "expected integer value for count"
  end.

Definition comparePre (a b : string) : Z :=
  match String.compare a b with Lt => (-1)%Z | Eq => 0%Z | Gt => 1%Z end.

#[local] Instance collaborators : Collaborators := {|
  Sys := gmap string string;
  Creds := unit;
  EnvVars := list string;
  TrimFunc_IsSpace := fun s => s;
  TrimRightFunc_IsSpace := fun s => s;
  Replace_emptyOld := fun s _ => s;
  Fields := fun s => if String.eqb s "" then [] else [s];
  Sprintf_s_other := fun _ => "%!s(?)";
  comparePrerelease := comparePre;
  validatePrerelease := fun _ => None;
  validateMetadata := fun _ => None;
  executil_Run := run;
  GetCommandArgsToLog := commandLine;
  os_Environ := fun _ => [];
  os_Stat := stat;
  os_ReadFile := readFile;
  os_WriteFile := fun p b _ s => (None, <[p := b]> s);
  os_OpenRoot := fun _ s => (None, s);
  Root_Stat := fun root p s =>
    match s !! join root p with Some _ => None | None => Some "no such file or directory" end;
  io_Close_Root := fun _ _ s => s;
  filepath_Join := join;
  filepath_Rel := fun base target => inr (strings.TrimPrefix target (base +:+ "/"));
  yaml_Unmarshal := unmarshal;
  yaml_Marshal := marshal;
  kube_SplitYAML := fun _ => inr [];
  Env_Environ := fun e => e;
  Env_Envsubst := fun _ s => s;
  GetIntCount := intCount;
  Creds_nil := tt;
  Creds_Environ := fun _ s => (inr [], s);
  Closer_Close := fun _ s => s;
  IsHTTPSURL := fun u => String.prefix "https://" u;
  url_Parse := fun u => inr u;
  GetCertBundlePathForRepository := fun _ _ => inr "";
  proxy_UpsertEnv := fun cmd _ _ => Env cmd
|}.

(** A checkout at [/repo] with the application in [/repo/app]. *)
Definition app : kustomize :=
  {| repoRoot := "/repo"; path := "/repo/app"; creds := tt; repo := "";
     binaryPath := ""; proxy := ""; noProxy := "" |}.

Definition worldOf (files : gmap string string) (cached : option Version) : World :=
  {| sys := files; invocations := []; semVer := cached; logs := [] |}.

Definition noOpts : ApplicationSourceKustomize :=
  {| NamePrefix := ""; NameSuffix := ""; Images := []; Replicas := [];
     CommonLabels := ∅; ForceCommonLabels := false; LabelWithoutSelector := false;
     LabelIncludeTemplates := false; CommonAnnotations := ∅;
     ForceCommonAnnotations := false; CommonAnnotationsEnvsubst := false;
     Namespace := ""; Patches := []; Components := [];
     IgnoreMissingComponents := false |}.

Definition v3_6_0 : Version := semver.release 3 6 0 "v3.6.0".

(** The kustomization file of the application, with two patches. *)
Definition withDescriptor : gmap string string :=
  {[ "/repo/app/kustomization.yaml" := "patches: [q1, q2]" ]}.

Definition existingPatches : gmap string any :=
  {[ "patches" := VSlice [VString "q1"; VString "q2"] ]}.

(** A name prefix and one patch. *)
Definition prefixAndPatch : ApplicationSourceKustomize :=
  {| NamePrefix := "dev-"; NameSuffix := ""; Images := []; Replicas := [];
     CommonLabels := ∅; ForceCommonLabels := false; LabelWithoutSelector := false;
     LabelIncludeTemplates := false; CommonAnnotations := ∅;
     ForceCommonAnnotations := false; CommonAnnotationsEnvsubst := false;
     Namespace := ""; Patches := [OpaquePatch "p1"]; Components := [];
     IgnoreMissingComponents := false |}.

(** A name prefix and one component. *)
Definition prefixAndComponent : ApplicationSourceKustomize :=
  {| NamePrefix := "dev-"; NameSuffix := ""; Images := []; Replicas := [];
     CommonLabels := ∅; ForceCommonLabels := false; LabelWithoutSelector := false;
     LabelIncludeTemplates := false; CommonAnnotations := ∅;
     ForceCommonAnnotations := false; CommonAnnotationsEnvsubst := false;
     Namespace := ""; Patches := []; Components := ["base"];
     IgnoreMissingComponents := false |}.

(** One component, to be skipped when it is missing. *)
Definition optionalComponent : ApplicationSourceKustomize :=
  {| NamePrefix := ""; NameSuffix := ""; Images := []; Replicas := [];
     CommonLabels := ∅; ForceCommonLabels := false; LabelWithoutSelector := false;
     LabelIncludeTemplates := false; CommonAnnotations := ∅;
     ForceCommonAnnotations := false; CommonAnnotationsEnvsubst := false;
     Namespace := ""; Patches := []; Components := ["base"];
     IgnoreMissingComponents := true |}.

Definition labels : gmap string string := {[ "a" := "1"; "b" := "2" ]}.

End Fake.

(** ** Notions for the properties of the whole pipeline *)

Section PipelineNotions.
Context `{Collaborators}.

(** A command that asks the tool for its version: its first argument is
    [version]. *)
Definition isProbe (c : Cmd) : bool :=
  match Args c with
  | _ :: a :: _ => String.eqb a "version"
  | _ => false
  end.

Definition versionProbes (l : list Cmd) : nat := length (filter (fun c => isProbe c = true) l).

(** From [w] to [w']: commands were run, none is forgotten; a version that is
    known is kept and not asked for again; a version that is not known is
    asked for at most once, and is known from then on. *)
Definition asksVersionOnce (w w' : World) : Prop :=
  ∃ new,
    invocations w' = invocations w ++ new
    ∧ match semVer w with
      | Some v => semVer w' = Some v ∧ versionProbes new = 0
      | None =>
          (semVer w' = None ∧ versionProbes new = 0)
          ∨ (is_Some (semVer w') ∧ versionProbes new = 1)
      end.

(** From [st] to [st']: the world moves as above, [commands] is appended to
    and deferred calls are only added. *)
Definition grows (st st' : BuildState) : Prop :=
  asksVersionOnce (world st) (world st')
  ∧ (∃ entries, commands st' = commands st ++ entries)
  ∧ (∃ more, deferred st' = more ++ deferred st).

Definition Growing {A} (m : M A) : Prop := ∀ st, grows st (m st).2.

(** The [key:value] arguments for a version, over the pairs in the order of
    the map. *)
Definition encodePairs (ver : Version) (val : gmap string string) : list string :=
  if semver.LessThan ver semver.v3_8_5
  then [String.concat "," (map pairArg (map_to_list val))]
  else map pairArg (map_to_list val).

Definition onlyIf (b : bool) (c : Cmd) : list Cmd := if b then [c] else [].

(** The [kustomize edit] commands of a customization without patches, in the
    order of the source: one for each field that is set. [replicas] are the
    arguments of [edit set replicas], the counts resolved. *)
Definition plannedEdits (k : kustomize) (opts : ApplicationSourceKustomize)
    (envVars : option EnvVars) (ver : Version) (replicas : list string) : list Cmd :=
  onlyIf (negb (String.eqb (NamePrefix opts) ""))
         (editCommand k ["edit"; "set"; "nameprefix"; "--"; NamePrefix opts])
  ++ onlyIf (negb (String.eqb (NameSuffix opts) ""))
            (editCommand k ["edit"; "set"; "namesuffix"; "--"; NameSuffix opts])
  ++ onlyIf (0 <? length (Images opts))%nat
            (editCommand k (["edit"; "set"; "image"]
                            ++ map (Env_Envsubst envVars) (Images opts)))
  ++ onlyIf (0 <? length (Replicas opts))%nat (editCommand k replicas)
  ++ onlyIf (0 <? size (CommonLabels opts))%nat
            (editCommand k
               (["edit"; "add"; "label"]
                ++ (if ForceCommonLabels opts then ["--force"] else [])
                ++ (if LabelWithoutSelector opts then ["--without-selector"] else [])
                ++ (if LabelIncludeTemplates opts then ["--include-templates"] else [])
                ++ encodePairs ver (Env_Envsubst envVars <$> CommonLabels opts)))
  ++ onlyIf (0 <? size (CommonAnnotations opts))%nat
            (editCommand k
               (["edit"; "add"; "annotation"]
                ++ (if ForceCommonAnnotations opts then ["--force"] else [])
                ++ encodePairs ver
                     (if CommonAnnotationsEnvsubst opts
                      then Env_Envsubst envVars <$> CommonAnnotations opts
                      else CommonAnnotations opts)))
  ++ onlyIf (negb (String.eqb (Namespace opts) ""))
            (editCommand k ["edit"; "set"; "namespace"; "--"; Namespace opts]).

(** Running a list of commands, each recorded and then run, up to the first
    that fails. *)
Fixpoint runPlan (plan : list Cmd) : M unit :=
  match plan with
  | [] => ret tt
  | cmd :: rest => bind (runLogged cmd) (fun _ => runPlan rest)
  end.

(** The outside world after the commands of [cmds] have been run, one after
    the other, from [s]. *)
Definition sysAfter (cmds : list Cmd) (s : Sys) : Sys :=
  fold_left (fun s cmd => (executil_Run cmd s).2) cmds s.

(** Every command of [cmds] succeeds when they are run one after the other
    from [s]. *)
Definition allSucceed (cmds : list Cmd) (s : Sys) : Prop :=
  ∀ before cmd after,
    cmds = before ++ cmd :: after →
    ∃ out, (executil_Run cmd (sysAfter before s)).1 = inr out.

(** A component is found: its path relative to the repository root resolves
    and exists under the root. *)
Definition componentFound (k : kustomize) (s : Sys) (c : string) : bool :=
  match filepath_Rel (repoRoot k) (filepath_Join (path k) c) with
  | inr resolvedPath =>
      match Root_Stat (repoRoot k) resolvedPath s with
      | None => true
      | Some _ => false
      end
  | inl _ => false
  end.

(** The Helm flags derived from the build options: the Kubernetes version
    when it is set, then every API version, in order. *)
Definition helmFlags (bo : BuildOpts) : list string :=
  (if String.eqb (KubeVersion bo) "" then [] else ["--helm-kube-version"; KubeVersion bo])
  ++ flat_map (fun v => ["--helm-api-versions"; v]) (APIVersions bo).

(** The [GIT_SSL_CAINFO] entry of the environment: present for an HTTPS
    repository whose URL parses and for which a CA bundle is configured. *)
Definition caInfo (k : kustomize) (s : Sys) : list string :=
  if negb (String.eqb (repo k) "") && IsHTTPSURL (repo k) then
    match url_Parse (repo k) with
    | inl _ => []
    | inr host =>
        match GetCertBundlePathForRepository host s with
        | inl _ => []
        | inr caPath => if String.eqb caPath "" then [] else ["GIT_SSL_CAINFO=" +:+ caPath]
        end
    end
  else [].

End PipelineNotions.

(** ** A test double with faults

    The double of [Fake], with knobs: an error for the credentials, an error
    for the opening of the repository root, an error for component paths
    that leave the root directory, and the decoder of kustomization
    files. *)
Module Faulty.

Definition relativeTo (strict : bool) (base target : string) : error + string :=
  if strict && negb (String.prefix (base +:+ "/") target)
  then inl "Rel: can't make the path relative to the root"
  else inr (strings.TrimPrefix target (base +:+ "/")).

Definition collaborators (credsError openRootError : option error) (strict : bool)
    (decode : string → error + any) : Collaborators := {|
  Sys := gmap string string;
  Creds := unit;
  EnvVars := list string;
  TrimFunc_IsSpace := fun s => s;
  TrimRightFunc_IsSpace := fun s => s;
  Replace_emptyOld := fun s _ => s;
  Fields := fun s => if String.eqb s "" then [] else [s];
  Sprintf_s_other := fun _ => "%!s(?)";
  comparePrerelease := Fake.comparePre;
  validatePrerelease := fun _ => None;
  validateMetadata := fun _ => None;
  executil_Run := Fake.run;
  GetCommandArgsToLog := Fake.commandLine;
  os_Environ := fun _ => ["HOME=/home/argocd"];
  os_Stat := Fake.stat;
  os_ReadFile := Fake.readFile;
  os_WriteFile := fun p b _ s => (None, <[p := b]> s);
  os_OpenRoot := fun _ s => (openRootError, s);
  Root_Stat := fun root p s =>
    match s !! Fake.join root p with
    | Some _ => None
    | None => Some "no such file or directory"
    end;
  io_Close_Root := fun _ _ s => s;
  filepath_Join := Fake.join;
  filepath_Rel := relativeTo strict;
  yaml_Unmarshal := decode;
  yaml_Marshal := Fake.marshal;
  kube_SplitYAML := fun _ => inr [];
  Env_Environ := fun e => e;
  Env_Envsubst := fun _ s => s;
  GetIntCount := Fake.intCount;
  Creds_nil := tt;
  Creds_Environ := fun _ s =>
    match credsError with
    | Some err => (inl err, s)
    | None => (inr ["GIT_ASKPASS=argocd"], <[ "/tmp/creds" := "secret" ]> s)
    end;
  Closer_Close := fun _ s => delete "/tmp/creds" s;
  IsHTTPSURL := fun u => String.prefix "https://" u;
  url_Parse := fun u => inr u;
  GetCertBundlePathForRepository := fun _ _ => inr "";
  proxy_UpsertEnv := fun cmd _ _ => Env cmd
|}.

(** A kustomization whose [patches] field is null. *)
Definition nullPatches (b : string) : error + any :=
  inr (VMap {[ "patches" := VNil ]}).

End Faulty.

(** ** Further inputs for the concrete runs *)
Module Inputs.

(** The application of [Fake.app], built with a binary of its own. *)
Definition customBinary : @kustomize Fake.collaborators :=
  @mkKustomize Fake.collaborators "/repo" "/repo/app" tt "" "/opt/kustomize" "" "".

(** The application of [Fake.app] for the doubles with faults. *)
Definition app (C : Collaborators) (c : @Creds C) : @kustomize C :=
  @mkKustomize C "/repo" "/repo/app" c "" "" "" "".

Definition worldOf (C : Collaborators) (files : @Sys C) (cached : option Version)
  : @World C :=
  @mkWorld C files [] cached [].

Definition noCredentials : Collaborators :=
  Faulty.collaborators (Some "no credentials") None false Fake.unmarshal.

Definition withCredentials : Collaborators :=
  Faulty.collaborators None None false Fake.unmarshal.

Definition closedRoot : Collaborators :=
  Faulty.collaborators None (Some "permission denied") false Fake.unmarshal.

Definition strictPaths : Collaborators :=
  Faulty.collaborators None None true Fake.unmarshal.

Definition nullDescriptor : Collaborators :=
  Faulty.collaborators None None false Faulty.nullPatches.

(** Two labels and nothing else. *)
Definition labelled : ApplicationSourceKustomize :=
  {| NamePrefix := ""; NameSuffix := ""; Images := []; Replicas := [];
     CommonLabels := Fake.labels; ForceCommonLabels := false;
     LabelWithoutSelector := false; LabelIncludeTemplates := false;
     CommonAnnotations := ∅; ForceCommonAnnotations := false;
     CommonAnnotationsEnvsubst := false; Namespace := ""; Patches := [];
     Components := []; IgnoreMissingComponents := false |}.

(** A prefix, an image, a replica count and a namespace. *)
Definition edits : ApplicationSourceKustomize :=
  {| NamePrefix := "dev-"; NameSuffix := ""; Images := ["nginx:1.2"];
     Replicas := [ {| replicaName := "web"; replicaCount := FromInt 3 |} ];
     CommonLabels := ∅; ForceCommonLabels := false;
     LabelWithoutSelector := false; LabelIncludeTemplates := false;
     CommonAnnotations := ∅; ForceCommonAnnotations := false;
     CommonAnnotationsEnvsubst := false; Namespace := "prod"; Patches := [];
     Components := []; IgnoreMissingComponents := false |}.

(** A replica count that resolves, one that does not, and one more. *)
Definition replicas : list KustomizeReplica :=
  [ {| replicaName := "web"; replicaCount := FromInt 3 |};
    {| replicaName := "db"; replicaCount := FromString "many" |};
    {| replicaName := "cache"; replicaCount := FromInt 1 |} ].

Definition unresolvedReplica : ApplicationSourceKustomize :=
  {| NamePrefix := ""; NameSuffix := ""; Images := []; Replicas := replicas;
     CommonLabels := ∅; ForceCommonLabels := false;
     LabelWithoutSelector := false; LabelIncludeTemplates := false;
     CommonAnnotations := ∅; ForceCommonAnnotations := false;
     CommonAnnotationsEnvsubst := false; Namespace := ""; Patches := [];
     Components := []; IgnoreMissingComponents := false |}.

(** Components [base] and [extra], to be skipped or not when missing. *)
Definition twoComponents (ignoreMissing : bool) : ApplicationSourceKustomize :=
  {| NamePrefix := ""; NameSuffix := ""; Images := []; Replicas := [];
     CommonLabels := ∅; ForceCommonLabels := false;
     LabelWithoutSelector := false; LabelIncludeTemplates := false;
     CommonAnnotations := ∅; ForceCommonAnnotations := false;
     CommonAnnotationsEnvsubst := false; Namespace := ""; Patches := [];
     Components := ["base"; "extra"]; IgnoreMissingComponents := ignoreMissing |}.

(** A checkout in which only the component [extra] exists. *)
Definition onlyExtra : gmap string string := {[ "/repo/app/extra" := "" ]}.

(** A pod and a deployment, as decoded objects. *)
Definition pod : gmap string any :=
  {[ "spec" := VMap {[ "containers" := VSlice [VMap {[ "image" := VString "nginx" ]}] ]} ]}.

Definition deployment : gmap string any :=
  {[ "spec" := VMap {[ "initContainers" := VSlice [VMap {[ "image" := VString "busybox" ]}] ]} ]}.

End Inputs.

(** * Properties *)

(** ** Strings *)

Lemma append_cons (x : ascii) (a b : string) : String x a +:+ b = String x (a +:+ b).
Proof. reflexivity. Qed.

Lemma append_empty_l (b : string) : "" +:+ b = b.
Proof. reflexivity. Qed.

Lemma append_assoc (a b c : string) : (a +:+ b) +:+ c = a +:+ (b +:+ c).
Proof. induction a as [|x a IH]; [reflexivity | now rewrite !append_cons, IH]. Qed.


Lemma append_not_empty_r (a b : string) : b ≠ "" → a +:+ b ≠ "".
Proof. destruct a; [tauto | discriminate]. Qed.

Lemma pairArg_not_empty (kv : string * string) : pairArg kv ≠ "".
Proof. unfold pairArg. apply append_not_empty_r. discriminate. Qed.

Lemma concat_cons_cons (sep a b : string) (l : list string) :
  String.concat sep (a :: b :: l) = a +:+ sep +:+ String.concat sep (b :: l).
Proof. reflexivity. Qed.

Lemma concat_joined_head (sep a b : string) (r : list string) :
  String.concat sep ((a +:+ sep +:+ b) :: r)
  = a +:+ sep +:+ String.concat sep (b :: r).
Proof.
  destruct r as [|c r]; [reflexivity|].
  rewrite !concat_cons_cons, !append_assoc. reflexivity.
Qed.

(** The order of [sort.Strings] is a total order. *)
Lemma string_compare_le_trans (s1 s2 s3 : string) :
  String.compare s1 s2 ≠ Gt → String.compare s2 s3 ≠ Gt →
  String.compare s1 s3 ≠ Gt.
Proof.
  revert s2 s3.
  induction s1 as [|a s1 IH]; intros [|b s2] [|c s3]; simpl; try congruence.
  unfold Ascii.compare.
  destruct (N.compare_spec (N_of_ascii a) (N_of_ascii b)) as [Hab|Hab|Hab];
  destruct (N.compare_spec (N_of_ascii b) (N_of_ascii c)) as [Hbc|Hbc|Hbc];
  destruct (N.compare_spec (N_of_ascii a) (N_of_ascii c)) as [Hac|Hac|Hac];
  try congruence; try lia; intros; eauto.
Qed.

Lemma string_le_compare (a b : string) : string_le a b ↔ String.compare a b ≠ Gt.
Proof.
  unfold string_le, String.leb. destruct (String.compare a b); split; congruence.
Qed.

#[global] Instance string_le_trans : Transitive string_le.
Proof.
  intros a b c. rewrite !string_le_compare. apply string_compare_le_trans.
Qed.

#[global] Instance string_le_total : Total string_le.
Proof. intros a b. apply String.leb_total. Qed.

#[global] Instance string_le_antisymm : AntiSymm eq string_le.
Proof. intros a b. apply String.leb_antisym. Qed.

Lemma count_occ_flat_map {A B} (dec : ∀ x y : B, {x = y} + {x ≠ y})
    (f : A → list B) (l : list A) (x : B) :
  count_occ dec (flat_map f l) x = sum_list (map (fun a => count_occ dec (f a) x) l).
Proof.
  induction l as [|a l IH]; [reflexivity|].
  simpl. now rewrite count_occ_app, IH.
Qed.

Section Properties.
Context `{Collaborators}.

(** ** The detected version *)

Lemma getSemverSafe_cached (k : kustomize) (w : World) (v : Version) :
  semVer w = Some v → getSemverSafe k w = (v, w).
Proof. intros Hc. unfold getSemverSafe. now rewrite Hc. Qed.

(** Whatever happens, [getSemverSafe] leaves its result in [semVer]. *)
Lemma getSemverSafe_fills_cache (k : kustomize) (w : World) :
  semVer (getSemverSafe k w).2 = Some (getSemverSafe k w).1.
Proof.
  unfold getSemverSafe. destruct (semVer w) as [v|] eqn:Hc; [exact Hc|].
  destruct (getSemver k w) as [[err|ver] w']; reflexivity.
Qed.

(** ** The arguments of [edit add label] and [edit add annotation] *)

Lemma join_loop (l : list (string * string)) (arg : string) :
  arg ≠ "" →
  fold_left joinStep l arg = String.concat "," (arg :: map pairArg l).
Proof.
  revert arg. induction l as [|kv l IH]; intros arg Harg; [reflexivity|].
  simpl fold_left. rewrite IH.
  - unfold joinStep. destruct (String.eqb_spec arg "") as [->|_]; [congruence|].
    simpl negb. cbv iota. fold (pairArg kv). simpl map.
    rewrite (concat_cons_cons "," arg), append_assoc.
    apply concat_joined_head.
  - unfold joinStep. apply append_not_empty_r. apply (pairArg_not_empty kv).
Qed.

Lemma join_all (l : list (string * string)) :
  fold_left joinStep l "" = String.concat "," (map pairArg l).
Proof.
  destruct l as [|kv l]; [reflexivity|].
  simpl fold_left. apply join_loop. apply (pairArg_not_empty kv).
Qed.

Lemma separate_loop (l : list (string * string)) (args : list string) :
  fold_left (fun args kv => args ++ [kv.1 +:+ ":" +:+ kv.2]) l args
  = args ++ map pairArg l.
Proof.
  revert args. induction l as [|kv l IH]; intros args; simpl.
  - now rewrite app_nil_r.
  - rewrite IH, <- app_assoc. reflexivity.
Qed.

(** C1. With the pairs of the map taken in the order [pairs] in which the
    loop visits them (a permutation of the entries of the map): when the
    detected version is strictly below 3.8.5 the result is the single
    argument that joins every [key:value] with commas; otherwise each
    [key:value] is an argument of its own. *)
Theorem mapToEditAddArgs_by_version (val : gmap string string) (w : World) :
  val ≠ ∅ →
  ∃ pairs, pairs ≡ₚ map_to_list val ∧ pairs ≠ [] ∧
    (mapToEditAddArgs val w).1 =
      if semver.LessThan (getSemverSafe zeroKustomize w).1 semver.v3_8_5
      then [String.concat "," (map pairArg pairs)]
      else map pairArg pairs.
Proof.
  intros Hne. exists (map_to_list val). split; [reflexivity|]. split.
  - intros Hnil. apply map_to_list_empty_iff in Hnil. contradiction.
  - unfold mapToEditAddArgs.
    destruct (getSemverSafe zeroKustomize w) as [ver w'].
    cbn [fst]. destruct (semver.LessThan ver semver.v3_8_5); cbn [fst].
    + now rewrite join_all.
    + now rewrite separate_loop.
Qed.

(** ** The image scan *)

Lemma containers_loop (l : list any) (images : list Image) :
  fold_left
    (fun images obj =>
       match obj with
       | VMap mapObj =>
           match mapObj !! "image" with
           | Some image => images ++ [Sprintf_s image]
           | None => images
           end
       | _ => images
       end) l images
  = images ++ containerImages l.
Proof.
  revert images. induction l as [|e l IH]; intros images.
  - simpl. now rewrite app_nil_r.
  - simpl fold_left. rewrite IH. unfold containerImages. simpl flat_map.
    destruct e as [| | | | | |mapObj| |]; try reflexivity.
    destruct (mapObj !! "image"); [|reflexivity].
    now rewrite <- app_assoc.
Qed.

Lemma elements_loop (l : list any) (images : list Image) :
  fold_left
    (fun images vi =>
       match vi with
       | VMap _ => images ++ getImagesOf vi
       | _ => images
       end) l images
  = images ++ elementImages l.
Proof.
  revert images. induction l as [|e l IH]; intros images.
  - simpl. now rewrite app_nil_r.
  - simpl fold_left. rewrite IH. unfold elementImages. simpl flat_map.
    destruct e as [| | | | | |mapObj| |]; try reflexivity.
    now rewrite <- app_assoc.
Qed.

(** One round of the loop over the keys appends what the key contributes. *)
Lemma getImages_fold (object : gmap string any) :
  getImages object
  = map_fold (fun k v images => images ++ entryImages k v) [] object.
Proof.
  unfold getImages. simpl getImagesOf. rewrite !map_fold_foldr.
  apply foldr_ext; [|reflexivity..].
  intros [k v] images. unfold uncurry, entryImages. cbn [fst snd].
  destruct v as [| | | | |l|mapObj| |]; try now rewrite app_nil_r.
  - destruct (isContainersKey k).
    + apply containers_loop.
    + apply elements_loop.
  - reflexivity.
Qed.

Lemma foldr_append_entries (l : list (string * any)) :
  foldr (uncurry (fun k v images => images ++ entryImages k v)) [] l
  = flat_map (fun kv => entryImages kv.1 kv.2) (reverse l).
Proof.
  induction l as [|[k v] l IH]; [reflexivity|].
  simpl foldr. rewrite IH, reverse_cons, flat_map_app. simpl.
  now rewrite app_nil_r.
Qed.

(** C5. The scan of a mapping is the concatenation, over its keys in the
    order they are visited (every entry of the mapping once), of what each
    key contributes: for [containers] or [initContainers] holding a sequence,
    the string form of the [image] field of each mapping-shaped element,
    with no recursion into the element; for any other sequence, the scan of
    its mapping-shaped elements; for a mapping, its scan; nothing for any
    other value. *)
Theorem getImages_by_key (object : gmap string any) :
  visitOrder object ≡ₚ map_to_list object
  ∧ getImages object
    = flat_map
        (fun kv =>
           match kv.2 with
           | VSlice l =>
               if String.eqb kv.1 "containers" || String.eqb kv.1 "initContainers"
               then
                 flat_map
                   (fun element =>
                      match element with
                      | VMap mapObj =>
                          match mapObj !! "image" with
                          | Some image => [Sprintf_s image]
                          | None => []
                          end
                      | _ => []
                      end) l
               else
                 flat_map
                   (fun element =>
                      match element with
                      | VMap mapObj => getImages mapObj
                      | _ => []
                      end) l
           | VMap mapObj => getImages mapObj
           | _ => []
           end) (visitOrder object).
Proof.
  split.
  - unfold visitOrder. apply reverse_Permutation.
  - rewrite getImages_fold, map_fold_foldr, foldr_append_entries. reflexivity.
Qed.

Lemma images_loop (objs : list (gmap string any)) (images : list Image) :
  fold_left (fun images obj => images ++ getImages obj) objs images
  = images ++ flat_map getImages objs.
Proof.
  revert images. induction objs as [|obj objs IH]; intros images; simpl.
  - now rewrite app_nil_r.
  - now rewrite IH, <- app_assoc.
Qed.

Lemma getImageParameters_Permutation (objs : list (gmap string any)) :
  getImageParameters objs ≡ₚ flat_map getImages objs.
Proof.
  unfold getImageParameters, sort_Strings.
  rewrite merge_sort_Permutation, images_loop. reflexivity.
Qed.

Lemma getImageParameters_sorted (objs : list (gmap string any)) :
  StronglySorted string_le (getImageParameters objs).
Proof.
  unfold getImageParameters, sort_Strings.
  apply (StronglySorted_merge_sort string_le).
Qed.

(** C6. The image list of a list of objects is sorted in the order of Go on
    strings, and nothing is deduplicated: each image occurs in it as many
    times as it is found in the objects altogether. *)
Theorem getImageParameters_sorted_keeps_duplicates (objs : list (gmap string any)) :
  StronglySorted string_le (getImageParameters objs)
  ∧ ∀ image : Image,
      count_occ string_dec (getImageParameters objs) image
      = sum_list (map (fun obj => count_occ string_dec (getImages obj) image) objs).
Proof.
  split.
  - apply getImageParameters_sorted.
  - intros image.
    rewrite (proj1 (Permutation_count_occ string_dec _ _)
                   (getImageParameters_Permutation objs) image).
    apply count_occ_flat_map.
Qed.

(** An object that holds one container with the image [image]. *)
Lemma getImages_single_container (image : Image) :
  getImages {[ "containers" := VSlice [VMap {[ "image" := VString image ]}] ]}
  = [image].
Proof.
  rewrite getImages_fold, map_fold_singleton. unfold entryImages.
  simpl isContainersKey. cbv iota. unfold containerImages. simpl flat_map.
  rewrite lookup_singleton_eq. reflexivity.
Qed.

(** The same image in two objects comes out twice. *)
Lemma getImageParameters_twice (image : Image) :
  let obj : gmap string any :=
    {[ "containers" := VSlice [VMap {[ "image" := VString image ]}] ]} in
  getImageParameters [obj; obj] = [image; image].
Proof.
  intros obj.
  apply (StronglySorted_unique string_le).
  - apply getImageParameters_sorted.
  - repeat constructor. destruct (String.leb_total image image); assumption.
  - rewrite getImageParameters_Permutation. simpl flat_map.
    unfold obj. rewrite getImages_single_container. reflexivity.
Qed.

(** C10 (as amended). When a key, [containers] and [initContainers]
    included, holds a mapping rather than a sequence, the mapping is scanned
    like any other mapping: the key contributes exactly the scan of that
    mapping. That scan collects [image] fields only from the mapping-shaped
    elements of [containers] or [initContainers] sequences: an [image] key
    held by a mapping itself contributes nothing. *)
Theorem getImages_mapping_under_containers_key (k : string) (inner : gmap string any) :
  getImages {[ k := VMap inner ]} = getImages inner
  ∧ ∀ image : string, getImages {[ k := VMap {[ "image" := VString image ]} ]} = [].
Proof.
  split.
  - rewrite getImages_fold, map_fold_singleton. reflexivity.
  - intros image.
    rewrite !getImages_fold, !map_fold_singleton. simpl.
    rewrite getImages_fold, map_fold_singleton. reflexivity.
Qed.

(** ** Running the steps of [Build] *)

Ltac munfold :=
  unfold runLogged, fromResult, wrap, readSys, onSys, logM, liftW, tryW,
    appendCommand, defer, bind, ret, fail;
  cbn beta iota zeta.

Lemma bind_ok {A B} (m : M A) (f : A → M B) (st st' : BuildState) (a : A) :
  m st = (inr a, st') → bind m f st = f a st'.
Proof. intros Hm. unfold bind. now rewrite Hm. Qed.

Lemma bind_err {A B} (m : M A) (f : A → M B) (st st' : BuildState) (e : error) :
  m st = (inl e, st') → bind m f st = (inl e, st').
Proof. intros Hm. unfold bind. now rewrite Hm. Qed.

Lemma bind_assoc {A B C} (m : M A) (f : A → M B) (g : B → M C) (st : BuildState) :
  bind (bind m f) g st = bind m (fun a => bind (f a) g) st.
Proof. unfold bind. destruct (m st) as [[e|a] st']; reflexivity. Qed.

(** ** The results of a failed build *)

(** C2 (as amended). A build that fails, with a configuration error or with
    any other error, returns nothing but the error: the objects, the images
    and the command log are all nil, whatever had been recorded in
    [commands] before the failing step. *)
Theorem Build_failure_returns_only_the_error (k : kustomize)
    (opts : option ApplicationSourceKustomize) (kustomizeOptions : option KustomizeOptions)
    (envVars : option EnvVars) (buildOpts : option BuildOpts) (w : World) (err : error) :
  resErr (Build k opts kustomizeOptions envVars buildOpts w).1 = Some err →
  (buildBody k opts kustomizeOptions envVars buildOpts (initialState w)).1 = inl err
  ∧ resObjs (Build k opts kustomizeOptions envVars buildOpts w).1 = []
  ∧ resImages (Build k opts kustomizeOptions envVars buildOpts w).1 = []
  ∧ resCommands (Build k opts kustomizeOptions envVars buildOpts w).1 = [].
Proof.
  unfold Build.
  destruct (buildBody k opts kustomizeOptions envVars buildOpts (initialState w))
    as [[e|objs] st]; simpl; intros Herr; [|discriminate].
  injection Herr as ->. auto.
Qed.

(** ** The patches of the kustomization file *)

Lemma mergePatches_append (kMap : gmap string any) (qs : list any)
    (ps : list KustomizePatch) :
  kMap !! "patches" = Some (VSlice qs) →
  mergePatches kMap ps = inr (<["patches" := VSlice (qs ++ (VPatch <$> ps))]> kMap).
Proof. intros Hq. unfold mergePatches. now rewrite Hq. Qed.

Lemma mergePatches_set (kMap : gmap string any) (ps : list KustomizePatch) :
  kMap !! "patches" = None →
  mergePatches kMap ps = inr (<["patches" := VPatches ps]> kMap).
Proof. intros Hq. unfold mergePatches. now rewrite Hq. Qed.

(** What the patches step does once the kustomization file has been found,
    read and decoded into a map that [mergePatches] accepts. *)
Lemma stepPatches_run (k : kustomize) (opts : ApplicationSourceKustomize)
    (st : BuildState) (b : string) (kMap kMap' : gmap string any) :
  let file := findKustomizeFile (path k) (sys (world st)) in
  let kustomizationPath := filepath_Join (path k) file in
  Patches opts ≠ [] →
  file ≠ "" →
  os_ReadFile kustomizationPath (sys (world st)) = inr b →
  yaml_Unmarshal b = inr (VMap kMap) →
  mergePatches kMap (Patches opts) = inr kMap' →
  stepPatches k opts st =
    match yaml_Marshal kMap' with
    | inl err =>
        (inl ("failed to marshal kustomization.yaml after adding patches: " +:+ err), st)
    | inr text =>
        match os_Stat kustomizationPath (sys (world st)) with
        | inl err => (inl ("failed to stat kustomization.yaml: " +:+ err), st)
        | inr mode =>
            let '(werr, s) := os_WriteFile kustomizationPath text mode (sys (world st)) in
            let st' := {| world := setSys s (world st); commands := commands st;
                          deferred := deferred st |} in
            match werr with
            | Some err =>
                (inl ("failed to write kustomization.yaml with updated 'patches' field: "
                      +:+ err), st')
            | None =>
                (inr tt, {| world := setSys s (world st);
                            commands := commands st ++ [patchesCommandEntry];
                            deferred := deferred st |})
            end
        end
    end.
Proof.
  intros file kustomizationPath Hps Hfile Hread Hyaml Hmerge.
  unfold stepPatches. destruct (Patches opts) as [|p ps] eqn:Hp; [congruence|].
  simpl length. cbn [Nat.ltb Nat.leb when].
  munfold. cbn beta iota zeta. fold file.
  destruct (String.eqb_spec file "") as [->|_]; [congruence|].
  fold kustomizationPath. rewrite Hread. cbn beta iota. rewrite Hyaml. cbn beta iota.
  rewrite Hmerge.
  destruct (yaml_Marshal kMap') as [err|text]; [reflexivity|].
  destruct (os_Stat kustomizationPath (sys (world st))) as [err|mode]; [reflexivity|].
  cbn beta iota zeta. cbn [world sys].
  destruct (os_WriteFile kustomizationPath text mode (sys (world st))) as [[err|] s];
    reflexivity.
Qed.

(** C3. When the kustomization file has been found, read and decoded into a
    map whose [patches] key is absent or holds a sequence, the patches step
    computes a map that is then encoded and written over the file with its
    mode: its [patches] value is the former sequence followed by the new
    patches, in order, or exactly the new patches when the key was absent,
    and every other top-level key keeps its decoded value. *)
Theorem patches_are_appended (k : kustomize) (opts : ApplicationSourceKustomize)
    (st : BuildState) (b : string) (kMap : gmap string any) :
  let file := findKustomizeFile (path k) (sys (world st)) in
  let kustomizationPath := filepath_Join (path k) file in
  Patches opts ≠ [] →
  file ≠ "" →
  os_ReadFile kustomizationPath (sys (world st)) = inr b →
  yaml_Unmarshal b = inr (VMap kMap) →
  (kMap !! "patches" = None ∨ ∃ qs, kMap !! "patches" = Some (VSlice qs)) →
  ∃ kMap',
    mergePatches kMap (Patches opts) = inr kMap'
    ∧ kMap' !! "patches"
      = Some (match kMap !! "patches" with
              | Some (VSlice qs) => VSlice (qs ++ (VPatch <$> Patches opts))
              | _ => VPatches (Patches opts)
              end)
    ∧ (∀ key, key ≠ "patches" → kMap' !! key = kMap !! key)
    ∧ ∀ text mode,
        yaml_Marshal kMap' = inr text →
        os_Stat kustomizationPath (sys (world st)) = inr mode →
        sys (world (stepPatches k opts st).2)
        = (os_WriteFile kustomizationPath text mode (sys (world st))).2.
Proof.
  intros file kustomizationPath Hps Hfile Hread Hyaml Hkey.
  assert (∃ kMap', mergePatches kMap (Patches opts) = inr kMap'
            ∧ kMap' = <["patches" :=
                 match kMap !! "patches" with
                 | Some (VSlice qs) => VSlice (qs ++ (VPatch <$> Patches opts))
                 | _ => VPatches (Patches opts)
                 end]> kMap) as (kMap' & Hmerge & ->).
  { destruct Hkey as [Hnone | [qs Hsome]].
    - rewrite Hnone. eexists. split; [|reflexivity]. now apply mergePatches_set.
    - rewrite Hsome. eexists. split; [|reflexivity]. now apply mergePatches_append. }
  eexists. split; [exact Hmerge|]. split; [apply lookup_insert_eq|].
  split; [intros key Hne; now apply lookup_insert_ne|].
  intros text mode Hmarshal Hstat.
  rewrite (stepPatches_run k opts st b kMap _ Hps Hfile Hread Hyaml Hmerge).
  fold file. fold kustomizationPath. rewrite Hmarshal, Hstat.
  destruct (os_WriteFile kustomizationPath text mode (sys (world st))) as [[err|] s];
    reflexivity.
Qed.

(** ** The components step *)

(** The version is detected with at most one invocation: none when [semVer]
    is set. *)
Lemma getSemverSafe_invocations (k : kustomize) (w : World) :
  invocations (getSemverSafe k w).2
  = invocations w ++ match semVer w with Some _ => [] | None => [versionProbe k] end.
Proof.
  unfold getSemverSafe. destruct (semVer w) as [v|] eqn:Hc.
  - simpl. now rewrite app_nil_r.
  - unfold getSemver, versionWithBinaryPath, Run. fold (versionProbe k).
    destruct (executil_Run (versionProbe k) (sys w)) as [[err|out] s]; [reflexivity|].
    cbn zeta.
    match goal with |- context [semver.FindStringSubmatch ?t] =>
      destruct (semver.FindStringSubmatch t) as [m|]; [|reflexivity] end.
    destruct (semver.NewVersion (semver.m0 m)); reflexivity.
Qed.

Lemma buildBody_at_components (k : kustomize) (opts : ApplicationSourceKustomize)
    (kustomizeOptions : option KustomizeOptions) (envVars : option EnvVars)
    (buildOpts : option BuildOpts) (w : World) (env : list string)
    (st0 st : BuildState) :
  buildEnviron k envVars (initialState w) = (inr env, st0) →
  stepsBeforeComponents k opts envVars st0 = (inr tt, st) →
  buildBody k (Some opts) kustomizeOptions envVars buildOpts (initialState w)
  = bind (stepComponents k opts env)
         (fun _ => stepBuild k kustomizeOptions buildOpts env) st.
Proof.
  intros Henv Hsteps. unfold buildBody.
  rewrite (bind_ok _ _ _ _ _ Henv), bind_assoc.
  now rewrite (bind_ok _ _ _ _ _ Hsteps).
Qed.

Lemma stepComponents_not_supported (k : kustomize) (opts : ApplicationSourceKustomize)
    (env : list string) (st : BuildState) (v : Version) (w' : World) :
  Components opts ≠ [] →
  getSemverSafe k (world st) = (v, w') →
  semver.LessThan v semver.v3_7_0 = true →
  stepComponents k opts env st
  = (inl componentsNotSupported,
     {| world := w'; commands := commands st; deferred := deferred st |}).
Proof.
  intros Hc Hver Hlt. unfold stepComponents.
  destruct (Components opts) as [|c cs]; [congruence|].
  simpl length. cbn [Nat.ltb Nat.leb when].
  munfold. rewrite Hver. cbn beta iota. now rewrite Hlt.
Qed.

(** C4 (as amended). For a customization with a non-empty components list,
    once the steps that precede the components step have succeeded and the
    version detected at that step is strictly below 3.7.0, [Build] fails with
    the explicit error "kustomize components require kustomize v3.7.0 and
    above" and returns nothing else; it runs neither [edit add component]
    nor [build]: the commands run are those of the earlier steps, followed by
    the version probe when the version was not yet known. *)
Theorem components_require_v3_7_0 (k : kustomize) (opts : ApplicationSourceKustomize)
    (kustomizeOptions : option KustomizeOptions) (envVars : option EnvVars)
    (buildOpts : option BuildOpts) (w : World) (env : list string)
    (st0 st : BuildState) :
  Components opts ≠ [] →
  buildEnviron k envVars (initialState w) = (inr env, st0) →
  stepsBeforeComponents k opts envVars st0 = (inr tt, st) →
  semver.LessThan (getSemverSafe k (world st)).1 semver.v3_7_0 = true →
  (Build k (Some opts) kustomizeOptions envVars buildOpts w).1
  = {| resObjs := []; resImages := []; resCommands := [];
       resErr := Some componentsNotSupported |}
  ∧ invocations (Build k (Some opts) kustomizeOptions envVars buildOpts w).2
    = invocations (world st)
      ++ match semVer (world st) with Some _ => [] | None => [versionProbe k] end.
Proof.
  intros Hc Henv Hsteps Hlt.
  destruct (getSemverSafe k (world st)) as [v w'] eqn:Hver.
  unfold Build.
  rewrite (buildBody_at_components _ _ _ _ _ _ _ _ _ Henv Hsteps).
  rewrite (bind_err _ _ _ _ _ (stepComponents_not_supported _ _ _ _ _ _ Hc Hver Hlt)).
  split; [reflexivity|].
  cbn [snd]. unfold runDeferred, setSys. cbn [invocations world].
  rewrite <- getSemverSafe_invocations, Hver. reflexivity.
Qed.
Lemma foundComponentsLoop_all_missing (k : kustomize) (components found : list string)
    (st : BuildState) :
  Forall (fun c =>
            ∃ resolvedPath,
              filepath_Rel (repoRoot k) (filepath_Join (path k) c) = inr resolvedPath
              ∧ is_Some (Root_Stat (repoRoot k) resolvedPath (sys (world st))))
         components →
  ∃ st', foundComponentsLoop k components found st = (inr found, st')
         ∧ sameButLogs st st'.
Proof.
  revert st. induction components as [|c rest IH]; intros st Hall.
  - exists st. split; [reflexivity|]. repeat split.
  - inversion Hall as [|? ? (resolvedPath & Hrel & [serr Hstat]) Hrest]; subst.
    simpl foundComponentsLoop. rewrite Hrel.
    munfold. rewrite Hstat. cbn beta iota.
    destruct (IH {| world := logf (resolvedPath +:+ " component directory does not exist")
                                  (world st);
                    commands := commands st; deferred := deferred st |})
      as (st' & Hrun & Hs & Hi & Hv & Hc & Hd); [exact Hrest|].
    exists st'. split; [exact Hrun|]. repeat split; assumption.
Qed.

Lemma bind_run {A B} (m : M A) (f : A → M B) (st : BuildState) :
  bind m f st
  = match m st with
    | (inl e, st') => (inl e, st')
    | (inr a, st') => f a st'
    end.
Proof. reflexivity. Qed.

Lemma bind_same {A B} (m m' : M A) (f : A → M B) (st st' : BuildState) :
  m st = m' st' → bind m f st = bind m' f st'.
Proof. intros Hm. rewrite !bind_run. now rewrite Hm. Qed.

(** The recurring three lines, run. *)
Lemma runLogged_run (cmd : Cmd) (st : BuildState) :
  runLogged cmd st
  = ((executil_Run cmd (sys (world st))).1,
     {| world := {| sys := (executil_Run cmd (sys (world st))).2;
                    invocations := invocations (world st) ++ [cmd];
                    semVer := semVer (world st);
                    logs := logs (world st) |};
        commands := commands st ++ [GetCommandArgsToLog cmd];
        deferred := deferred st |}).
Proof.
  munfold. unfold Run. cbn [world sys commands deferred invocations semVer logs].
  destruct (executil_Run cmd (sys (world st))) as [r s]. reflexivity.
Qed.

Lemma parseKustomizeBuildOptions_invocations (k : kustomize) (buildOptions : string)
    (buildOpts : option BuildOpts) (w : World) :
  ∃ pre, invocations (parseKustomizeBuildOptions k buildOptions buildOpts w).2
         = invocations w ++ pre.
Proof.
  unfold parseKustomizeBuildOptions. destruct buildOpts as [bo|].
  - pose proof (getSemverSafe_invocations k w) as Hinv.
    destruct (getSemverSafe k w) as [ver w']. cbn [snd] in Hinv.
    eexists.
    destruct (negb (semver.LessThan ver semver.v5_3_0) && isHelmEnabled buildOptions);
      cbn [snd]; exact Hinv.
  - exists []. cbn [snd]. now rewrite app_nil_r.
Qed.

(** The build step: one command, possibly after the version probe. *)
Lemma stepBuild_run (k : kustomize) (kustomizeOptions : option KustomizeOptions)
    (buildOpts : option BuildOpts) (env : list string) (st : BuildState) :
  ∃ cmd st1 pre,
    stepBuild k kustomizeOptions buildOpts env st
    = bind (runLogged cmd) (fun out => fromResult (kube_SplitYAML out)) st1
    ∧ invocations (world st1) = invocations (world st) ++ pre
    ∧ commands st1 = commands st.
Proof.
  unfold stepBuild.
  destruct kustomizeOptions as [ko|];
    [destruct (negb (String.eqb (BuildOptions ko) ""))|].
  - destruct (parseKustomizeBuildOptions_invocations k (BuildOptions ko) buildOpts
                (world st)) as [pre Hpre].
    rewrite !bind_assoc. unfold bind at 1. unfold liftW.
    destruct (parseKustomizeBuildOptions k (BuildOptions ko) buildOpts (world st))
      as [params w'].
    cbn beta iota. unfold bind at 1. unfold ret at 1.
    eexists _, _, pre. split; [reflexivity|]. split; [exact Hpre | reflexivity].
  - unfold bind at 1. unfold ret at 1.
    eexists _, _, []. split; [reflexivity|]. split; [now rewrite app_nil_r | reflexivity].
  - unfold bind at 1. unfold ret at 1.
    eexists _, _, []. split; [reflexivity|]. split; [now rewrite app_nil_r | reflexivity].
Qed.

Lemma stepBuild_extends (k : kustomize) (kustomizeOptions : option KustomizeOptions)
    (buildOpts : option BuildOpts) (env : list string) (st : BuildState) :
  ∃ later laterEntries,
    invocations (world (stepBuild k kustomizeOptions buildOpts env st).2)
    = invocations (world st) ++ later
    ∧ commands (stepBuild k kustomizeOptions buildOpts env st).2
      = commands st ++ laterEntries.
Proof.
  destruct (stepBuild_run k kustomizeOptions buildOpts env st)
    as (cmd & st1 & pre & -> & Hi & Hc).
  unfold bind. rewrite runLogged_run.
  exists (pre ++ [cmd]), [GetCommandArgsToLog cmd].
  destruct (executil_Run cmd (sys (world st1))) as [[err|out] s]; cbn beta iota.
  - cbn. now rewrite Hi, Hc, app_assoc.
  - cbn [fst snd]. unfold fromResult, ret, fail.
    destruct (kube_SplitYAML out); cbn; now rewrite Hi, Hc, app_assoc.
Qed.

(** The components step when every component is missing: the command is run
    without any component path. *)
Lemma stepComponents_all_missing (k : kustomize) (opts : ApplicationSourceKustomize)
    (env : list string) (st : BuildState) (s : Sys) :
  Components opts ≠ [] →
  IgnoreMissingComponents opts = true →
  semver.LessThan (getSemverSafe k (world st)).1 semver.v3_7_0 = false →
  os_OpenRoot (repoRoot k) (sys (getSemverSafe k (world st)).2) = (None, s) →
  Forall (fun c =>
            ∃ resolvedPath,
              filepath_Rel (repoRoot k) (filepath_Join (path k) c) = inr resolvedPath
              ∧ is_Some (Root_Stat (repoRoot k) resolvedPath s))
         (Components opts) →
  ∃ st2,
    stepComponents k opts env st
    = bind (runLogged (withEnv (editCommand k ["edit"; "add"; "component"]) env))
           (fun _ => ret tt) st2
    ∧ invocations (world st2) = invocations (getSemverSafe k (world st)).2
    ∧ commands st2 = commands st.
Proof.
  intros Hc Hignore Hge Hopen Hall.
  destruct (getSemverSafe k (world st)) as [v w'] eqn:Hver. cbn [fst snd] in *.
  unfold stepComponents.
  destruct (Components opts) as [|c cs] eqn:Hcs; [congruence|].
  simpl length. cbn [Nat.ltb Nat.leb when]. rewrite Hignore.
  unfold bind at 1. unfold liftW at 1. rewrite Hver.
  cbn beta iota. rewrite Hge.
  rewrite !bind_assoc. unfold bind at 1. unfold onSys, liftW at 1.
  cbn [world sys]. rewrite Hopen. cbn beta iota.
  unfold bind at 1. unfold defer at 1. cbn beta iota.
  unfold bind at 1. cbn beta iota.
  match goal with |- context [foundComponentsLoop k (c :: cs) [] ?st1] =>
    destruct (foundComponentsLoop_all_missing k (c :: cs) [] st1)
      as (st2 & Hloop & Hs & Hi & Hv & Hco & Hd); [exact Hall|] end.
  rewrite Hloop. rewrite app_nil_r.
  exists st2. split; [reflexivity|]. split; assumption.
Qed.

(** C9. With [IgnoreMissingComponents] set, when the components step is
    reached (the earlier steps have succeeded, the detected version is not
    below 3.7.0, the repository root can be opened) and every listed
    component fails the existence check, [kustomize edit add component] is
    still run, with no component path at all, and recorded in [commands]:
    the invocation is not skipped. *)
Theorem components_all_missing_still_invoked (k : kustomize)
    (opts : ApplicationSourceKustomize) (kustomizeOptions : option KustomizeOptions)
    (envVars : option EnvVars) (buildOpts : option BuildOpts) (w : World)
    (env : list string) (st0 st : BuildState) (s : Sys) :
  Components opts ≠ [] →
  IgnoreMissingComponents opts = true →
  buildEnviron k envVars (initialState w) = (inr env, st0) →
  stepsBeforeComponents k opts envVars st0 = (inr tt, st) →
  semver.LessThan (getSemverSafe k (world st)).1 semver.v3_7_0 = false →
  os_OpenRoot (repoRoot k) (sys (getSemverSafe k (world st)).2) = (None, s) →
  Forall (fun c =>
            ∃ resolvedPath,
              filepath_Rel (repoRoot k) (filepath_Join (path k) c) = inr resolvedPath
              ∧ is_Some (Root_Stat (repoRoot k) resolvedPath s))
         (Components opts) →
  let cmd := withEnv (editCommand k ["edit"; "add"; "component"]) env in
  let final := (buildBody k (Some opts) kustomizeOptions envVars buildOpts
                          (initialState w)).2 in
  Args cmd = [getBinaryPath k; "edit"; "add"; "component"]
  ∧ ∃ later laterEntries,
      invocations (world final)
      = invocations (getSemverSafe k (world st)).2 ++ cmd :: later
      ∧ commands final = commands st ++ GetCommandArgsToLog cmd :: laterEntries.
Proof.
  intros Hc Hignore Henv Hsteps Hge Hopen Hall cmd final.
  split; [reflexivity|].
  subst final. rewrite (buildBody_at_components _ _ _ _ _ _ _ _ _ Henv Hsteps).
  destruct (stepComponents_all_missing k opts env st s Hc Hignore Hge Hopen Hall)
    as (st2 & Hstep & Hi & Hco).
  rewrite (bind_same _ _ _ _ _ Hstep). fold cmd.
  rewrite bind_assoc, bind_run, runLogged_run.
  destruct (executil_Run cmd (sys (world st2))) as [[err|out] s'].
  - exists [], []. cbn. now rewrite Hi, Hco.
  - cbn [fst snd]. cbv beta iota. rewrite bind_run. unfold ret.
    match goal with |- context [stepBuild k kustomizeOptions buildOpts env ?st3] =>
      destruct (stepBuild_extends k kustomizeOptions buildOpts env st3)
        as (later & laterEntries & Hinv' & Hcmd') end.
    exists later, laterEntries. rewrite Hinv', Hcmd'. cbn.
    now rewrite Hi, Hco, <- !app_assoc.
Qed.

(** ** The redaction of the command log *)

Lemma append_length (a b : string) :
  String.length (a +:+ b) = String.length a + String.length b.
Proof.
  induction a as [|x a IH]; [reflexivity|].
  rewrite append_cons. simpl. now rewrite IH.
Qed.

Lemma prefix_append (a s : string) :
  String.prefix a s = true ↔ ∃ q, s = a +:+ q.
Proof.
  revert s. induction a as [|x a IH]; intros s.
  - split; [intros _; now exists s | intros _; now destruct s].
  - destruct s as [|y s]; simpl.
    + split; [discriminate | intros [q Hq]; discriminate].
    + destruct (ascii_dec x y) as [->|Hne].
      * rewrite IH. split; intros [q Hq]; exists q.
        -- now rewrite append_cons, Hq.
        -- rewrite append_cons in Hq. now injection Hq.
      * split; [discriminate|]. intros [q Hq]. rewrite append_cons in Hq.
        injection Hq as Hxy _. congruence.
Qed.

Lemma replaceFrom_skip (old new x q : string) :
  strings.replaceFrom old new (String.length x) (x +:+ q)
  = strings.replaceFrom old new 0 q.
Proof.
  induction x as [|c x IH]; [reflexivity|].
  rewrite append_cons. simpl. exact IH.
Qed.

Lemma replaceFrom_at_instance (old new q : string) :
  old ≠ "" →
  strings.replaceFrom old new 0 (old +:+ q)
  = new +:+ strings.replaceFrom old new 0 q.
Proof.
  intros Hold. destruct old as [|c old']; [congruence|].
  rewrite append_cons. simpl strings.replaceFrom.
  assert (String.prefix (String c old') (String c (old' +:+ q)) = true) as Hp.
  { apply prefix_append. exists q. now rewrite append_cons. }
  simpl in Hp. rewrite Hp. rewrite Nat.sub_0_r. now rewrite replaceFrom_skip.
Qed.

Lemma replaceFrom_elsewhere (old new : string) (c : ascii) (s : string) :
  String.prefix old (String c s) = false →
  strings.replaceFrom old new 0 (String c s)
  = String c (strings.replaceFrom old new 0 s).
Proof. intros Hp. simpl strings.replaceFrom. simpl in Hp. now rewrite Hp. Qed.

Lemma Replaced_cons (old new : string) (c : ascii) (s r : string) :
  String.prefix old (String c s) = false →
  Replaced old new s r →
  Replaced old new (String c s) (String c r).
Proof.
  intros Hp Hr.
  assert (∀ q, String c s ≠ old +:+ q) as Hnot.
  { intros q Hq. assert (String.prefix old (String c s) = true) as Ht
      by (apply prefix_append; now exists q). congruence. }
  destruct Hr as [s Hnone | p q q' Hleft Hq].
  - apply Replaced_none. intros [|x p] q Heq.
    + apply (Hnot q). exact Heq.
    + rewrite append_cons in Heq. injection Heq as _ Heq. exact (Hnone _ _ Heq).
  - change (String c (p +:+ old +:+ q)) with (String c p +:+ old +:+ q).
    change (String c (p +:+ new +:+ q')) with (String c p +:+ new +:+ q').
    apply Replaced_first; [|exact Hq].
    intros [|x p'] q'' Heq.
    + exfalso. apply (Hnot q''). exact Heq.
    + rewrite !append_cons in Heq. injection Heq as _ Heq.
      simpl. apply le_n_S. exact (Hleft _ _ Heq).
Qed.

Lemma replaceFrom_Replaced (old new : string) :
  old ≠ "" → ∀ s, Replaced old new s (strings.replaceFrom old new 0 s).
Proof.
  intros Hold s.
  remember (String.length s) as n eqn:Hn.
  assert (String.length s ≤ n)%nat as Hle by lia. clear Hn.
  revert s Hle. induction n as [|n IH]; intros s Hle.
  - destruct s; [|simpl in Hle; lia].
    apply Replaced_none. intros p q Heq.
    apply (f_equal String.length) in Heq. rewrite !append_length in Heq.
    destruct old; [congruence | simpl in Heq; lia].
  - destruct s as [|c s].
    + apply Replaced_none. intros p q Heq.
      apply (f_equal String.length) in Heq. rewrite !append_length in Heq.
      destruct old; [congruence | simpl in Heq; lia].
    + destruct (String.prefix old (String c s)) eqn:Hp.
      * apply prefix_append in Hp as [q Hq]. rewrite Hq.
        rewrite replaceFrom_at_instance by exact Hold.
        change (old +:+ q) with ("" +:+ old +:+ q).
        change (new +:+ strings.replaceFrom old new 0 q)
          with ("" +:+ new +:+ strings.replaceFrom old new 0 q).
        apply Replaced_first.
        -- intros p' q'' _. simpl. lia.
        -- apply IH. apply (f_equal String.length) in Hq.
           rewrite append_length in Hq. simpl in Hq, Hle.
           destruct old; [congruence | simpl in Hq; lia].
      * rewrite replaceFrom_elsewhere by exact Hp.
        apply Replaced_cons; [exact Hp|]. apply IH. simpl in Hle. lia.
Qed.

Lemma Replaced_same (old s r : string) : Replaced old old s r → r = s.
Proof. induction 1 as [|p q q' _ _ IH]; [reflexivity | now rewrite IH]. Qed.

(** [ReplaceAll] replaces the instances of a non-empty [old] from the left. *)
Lemma ReplaceAll_Replaced (s old new : string) :
  old ≠ "" → Replaced old new s (strings.ReplaceAll s old new).
Proof.
  intros Hold. unfold strings.ReplaceAll.
  destruct (String.eqb_spec old new) as [<-|_].
  - pose proof (replaceFrom_Replaced old old Hold s) as Hr.
    pose proof (Replaced_same _ _ _ Hr) as Heq. congruence.
  - destruct (String.eqb_spec old "") as [->|_]; [congruence|].
    now apply replaceFrom_Replaced.
Qed.

(** C8. In the log a successful build returns, each entry is the recorded
    entry in which every instance of the repository root, wherever it
    stands, has been replaced by "." (the instances are taken from the
    left). *)
Theorem Build_redacts_repoRoot (k : kustomize)
    (opts : option ApplicationSourceKustomize) (kustomizeOptions : option KustomizeOptions)
    (envVars : option EnvVars) (buildOpts : option BuildOpts) (w : World) :
  repoRoot k ≠ "" →
  resErr (Build k opts kustomizeOptions envVars buildOpts w).1 = None →
  Forall2 (Replaced (repoRoot k) ".")
    (commands (buildBody k opts kustomizeOptions envVars buildOpts (initialState w)).2)
    (resCommands (Build k opts kustomizeOptions envVars buildOpts w).1).
Proof.
  intros Hroot. unfold Build.
  destruct (buildBody k opts kustomizeOptions envVars buildOpts (initialState w))
    as [[e|objs] st]; simpl; [discriminate|]. intros _.
  induction (commands st) as [|c cs IH]; simpl; constructor; [|exact IH].
  unfold redact. now apply ReplaceAll_Replaced.
Qed.

(** ** Supporting facts *)


(** The version pattern matches somewhere in a text exactly when the text
    holds a digit. *)
Lemma matchHere_without_digit (s : string) :
  hasDigit s = false → semver.matchHere s = None.
Proof.
  destruct s as [|c t]; [reflexivity|].
  simpl. intros Hd. apply orb_false_elim in Hd as [Hc Ht].
  unfold semver.matchHere.
  destruct (Ascii.eqb c "v").
  - destruct t as [|c' t']; [reflexivity|].
    simpl in Ht. apply orb_false_elim in Ht as [Hc' _].
    simpl. now rewrite Hc'.
  - simpl. now rewrite Hc.
Qed.

Lemma matchHere_at_digit (c : ascii) (t : string) :
  semver.isDigit c = true → semver.matchHere (String c t) ≠ None.
Proof.
  intros Hc. unfold semver.matchHere.
  destruct (Ascii.eqb_spec c "v") as [->|_]; [discriminate Hc|].
  simpl semver.digits. rewrite Hc.
  destruct (semver.digits t) as [d r]. simpl String.eqb.
  destruct (semver.dotDigits r) as [g2 r2].
  destruct (semver.dotDigits r2) as [g3 r3].
  destruct (semver.tagged "-" r3) as [g5 r4].
  destruct (semver.tagged "+" r4) as [g8 r5]. discriminate.
Qed.

Lemma FindStringSubmatch_None (s : string) :
  semver.FindStringSubmatch s = None ↔ hasDigit s = false.
Proof.
  induction s as [|c t IH].
  - split; reflexivity.
  - simpl semver.FindStringSubmatch. simpl hasDigit. split.
    + intros Hnone.
      destruct (semver.matchHere (String c t)) as [[m r]|] eqn:Hm; [discriminate|].
      apply IH in Hnone. rewrite Hnone, orb_false_r.
      destruct (semver.isDigit c) eqn:Hc; [|reflexivity].
      exfalso. now apply (matchHere_at_digit c t Hc).
    + intros Hd.
      rewrite (matchHere_without_digit (String c t)) by exact Hd.
      apply orb_false_elim in Hd as [_ Ht]. now apply IH.
Qed.

(** [sort.Strings] is determined by what it has to do: any sorted
    arrangement of the same strings is its result. *)
Lemma sort_Strings_unique (l sorted : list string) :
  sorted ≡ₚ l → StronglySorted string_le sorted → sorted = sort_Strings l.
Proof.
  intros Hperm Hsorted.
  apply (StronglySorted_unique string_le); [exact Hsorted| |].
  - apply (StronglySorted_merge_sort string_le).
  - unfold sort_Strings. now rewrite merge_sort_Permutation.
Qed.

Lemma append_inj_length (a a' b b' : string) :
  String.length a = String.length a' →
  a +:+ b = a' +:+ b' → a = a' ∧ b = b'.
Proof.
  revert a'. induction a as [|x a IH]; intros [|x' a'] Hlen Heq;
    try discriminate Hlen.
  - split; [reflexivity | exact Heq].
  - rewrite !append_cons in Heq. injection Heq as -> Heq.
    simpl in Hlen. injection Hlen as Hlen.
    destruct (IH a' Hlen Heq) as [-> ->]. split; reflexivity.
Qed.

(** For a non-empty [old], [Replaced] determines the result. *)
Lemma Replaced_functional (old new s r1 r2 : string) :
  old ≠ "" → Replaced old new s r1 → Replaced old new s r2 → r1 = r2.
Proof.
  intros Hold H1. revert r2.
  induction H1 as [s Hnone | p q q' Hleft Hq IH]; intros r2 H2.
  - inversion H2 as [s' Hnone' | p2 q2 q2' Hleft2 Hq2 Heq]; subst; [reflexivity|].
    now destruct (Hnone p2 q2).
  - remember (p +:+ old +:+ q) as s eqn:Hs.
    destruct H2 as [s Hnone' | p2 q2 q2' Hleft2 Hq2].
    + now destruct (Hnone' p q).
    + assert (String.length p = String.length p2) as Hlen.
      { apply Nat.le_antisymm.
        - apply (Hleft p2 q2). now rewrite Hs.
        - apply (Hleft2 p q). exact Hs. }
      destruct (append_inj_length _ _ _ _ Hlen (eq_sym Hs)) as [-> Hrest].
      destruct (append_inj_length _ _ _ _ eq_refl Hrest) as [_ ->].
      now rewrite (IH _ Hq2).
Qed.

(** ** The version text and its cleaning *)























End Properties.

(** * Further properties of the package *)

Section Coverage.
Context `{Collaborators}.

Ltac msteps :=
  unfold runLogged, fromResult, wrap, readSys, onSys, logM, liftW, tryW,
    appendCommand, defer, bind, ret, fail;
  cbn beta iota zeta.

(** ** What every step keeps *)

Lemma versionProbes_app (l1 l2 : list Cmd) :
  versionProbes (l1 ++ l2) = versionProbes l1 + versionProbes l2.
Proof. unfold versionProbes. now rewrite filter_app, length_app. Qed.

Lemma asksVersionOnce_refl (w : World) : asksVersionOnce w w.
Proof.
  exists []. split; [now rewrite app_nil_r|].
  destruct (semVer w); [split; reflexivity | left; split; reflexivity].
Qed.

Lemma asksVersionOnce_trans (w1 w2 w3 : World) :
  asksVersionOnce w1 w2 → asksVersionOnce w2 w3 → asksVersionOnce w1 w3.
Proof.
  intros (n1 & Hi1 & Hv1) (n2 & Hi2 & Hv2).
  exists (n1 ++ n2). split; [now rewrite Hi2, Hi1, app_assoc|].
  rewrite versionProbes_app.
  destruct (semVer w1) as [v|].
  - destruct Hv1 as [Hs1 Hp1]. rewrite Hs1 in Hv2. destruct Hv2 as [Hs2 Hp2].
    split; [exact Hs2 | lia].
  - destruct Hv1 as [[Hs1 Hp1] | [[v Hs1] Hp1]]; rewrite Hs1 in Hv2.
    + destruct Hv2 as [[Hs2 Hp2] | [Hs2 Hp2]]; [left | right]; split; (assumption || lia).
    + destruct Hv2 as [Hs2 Hp2]. right. split; [now exists v | lia].
Qed.

Lemma asksVersionOnce_sys (w : World) (s : Sys) : asksVersionOnce w (setSys s w).
Proof.
  exists []. split; [simpl; now rewrite app_nil_r|]. simpl.
  destruct (semVer w); [split; reflexivity | left; split; reflexivity].
Qed.

Lemma asksVersionOnce_logf (w : World) (line : string) : asksVersionOnce w (logf line w).
Proof.
  exists []. split; [simpl; now rewrite app_nil_r|]. simpl.
  destruct (semVer w); [split; reflexivity | left; split; reflexivity].
Qed.

Lemma asksVersionOnce_Run (cmd : Cmd) (w : World) :
  isProbe cmd = false → asksVersionOnce w (Run cmd w).2.
Proof.
  intros Hcmd. unfold Run. destruct (executil_Run cmd (sys w)) as [r s].
  exists [cmd]. split; [reflexivity|]. cbn [snd semVer].
  assert (versionProbes [cmd] = 0) as Hp.
  { unfold versionProbes. rewrite filter_cons_False; [reflexivity | congruence]. }
  destruct (semVer w); [split | left; split]; (reflexivity || exact Hp).
Qed.

Lemma isProbe_versionProbe (k : kustomize) : isProbe (versionProbe k) = true.
Proof. reflexivity. Qed.

Lemma asksVersionOnce_getSemverSafe (k : kustomize) (w : World) :
  asksVersionOnce w (getSemverSafe k w).2.
Proof.
  pose proof (getSemverSafe_invocations k w) as Hinv.
  pose proof (getSemverSafe_fills_cache k w) as Hfill.
  destruct (semVer w) as [v|] eqn:Hc.
  - rewrite (getSemverSafe_cached k w v Hc) in *. apply asksVersionOnce_refl.
  - exists [versionProbe k]. split; [exact Hinv|]. rewrite Hc. right.
    split; [rewrite Hfill; eauto | reflexivity].
Qed.

Lemma asksVersionOnce_mapToEditAddArgs (val : gmap string string) (w : World) :
  asksVersionOnce w (mapToEditAddArgs val w).2.
Proof.
  unfold mapToEditAddArgs.
  pose proof (asksVersionOnce_getSemverSafe zeroKustomize w) as Hv.
  destruct (getSemverSafe zeroKustomize w) as [ver w'].
  now destruct (semver.LessThan ver semver.v3_8_5).
Qed.

Lemma asksVersionOnce_parseKustomizeBuildOptions (k : kustomize) (buildOptions : string)
    (buildOpts : option BuildOpts) (w : World) :
  asksVersionOnce w (parseKustomizeBuildOptions k buildOptions buildOpts w).2.
Proof.
  unfold parseKustomizeBuildOptions. destruct buildOpts as [bo|].
  - pose proof (asksVersionOnce_getSemverSafe k w) as Hv.
    destruct (getSemverSafe k w) as [ver w'].
    now destruct (negb (semver.LessThan ver semver.v5_3_0) && isHelmEnabled buildOptions).
  - apply asksVersionOnce_refl.
Qed.

Lemma grows_refl (st : BuildState) : grows st st.
Proof.
  split; [apply asksVersionOnce_refl|].
  split; [exists []; now rewrite app_nil_r | now exists []].
Qed.

Lemma grows_trans (st1 st2 st3 : BuildState) :
  grows st1 st2 → grows st2 st3 → grows st1 st3.
Proof.
  intros (Hw1 & [e1 Hc1] & [d1 Hd1]) (Hw2 & [e2 Hc2] & [d2 Hd2]).
  split; [exact (asksVersionOnce_trans _ _ _ Hw1 Hw2)|]. split.
  - exists (e1 ++ e2). now rewrite Hc2, Hc1, app_assoc.
  - exists (d2 ++ d1). now rewrite Hd2, Hd1, app_assoc.
Qed.

Lemma Growing_ret {A} (a : A) : Growing (ret a).
Proof. intros st. apply grows_refl. Qed.

Lemma Growing_fail {A} (e : error) : Growing (@fail _ A e).
Proof. intros st. apply grows_refl. Qed.

Lemma Growing_bind {A B} (m : M A) (f : A → M B) :
  Growing m → (∀ a, Growing (f a)) → Growing (bind m f).
Proof.
  intros Hm Hf st. specialize (Hm st). unfold bind.
  destruct (m st) as [[e|a] st']; [exact Hm|].
  exact (grows_trans _ _ _ Hm (Hf a st')).
Qed.

Lemma Growing_bind_where {A B} (P : A → Prop) (m : M A) (f : A → M B) :
  Growing m → (∀ st a st', m st = (inr a, st') → P a) →
  (∀ a, P a → Growing (f a)) → Growing (bind m f).
Proof.
  intros Hm HP Hf st. specialize (Hm st). specialize (HP st). unfold bind.
  destruct (m st) as [[e|a] st']; [exact Hm|].
  exact (grows_trans _ _ _ Hm (Hf a (HP a st' eq_refl) st')).
Qed.

Lemma Growing_when (b : bool) (m : M unit) : Growing m → Growing (when b m).
Proof. intros Hm. destruct b; [exact Hm | apply Growing_ret]. Qed.

Lemma Growing_fromResult {A} (r : error + A) : Growing (fromResult r).
Proof. destruct r; [apply Growing_fail | apply Growing_ret]. Qed.

Lemma Growing_readSys {A} (f : Sys → A) : Growing (readSys f).
Proof. intros st. apply grows_refl. Qed.

Lemma Growing_liftW {A} (f : World → A * World) :
  (∀ w, asksVersionOnce w (f w).2) → Growing (liftW f).
Proof.
  intros Hf st. unfold liftW. specialize (Hf (world st)).
  destruct (f (world st)) as [a w]. split; [exact Hf|].
  split; [exists []; simpl; now rewrite app_nil_r | now exists []].
Qed.

Lemma Growing_tryW {A} (f : World → (error + A) * World) :
  (∀ w, asksVersionOnce w (f w).2) → Growing (tryW f).
Proof.
  intros Hf st. unfold tryW. specialize (Hf (world st)).
  destruct (f (world st)) as [a w]. split; [exact Hf|].
  split; [exists []; simpl; now rewrite app_nil_r | now exists []].
Qed.

Lemma Growing_onSys {A} (f : Sys → A * Sys) : Growing (onSys f).
Proof.
  apply Growing_liftW. intros w. destruct (f (sys w)) as [a s].
  apply asksVersionOnce_sys.
Qed.

Lemma Growing_logM (line : string) : Growing (logM line).
Proof. apply Growing_liftW. intros w. apply asksVersionOnce_logf. Qed.

Lemma Growing_appendCommand (entry : string) : Growing (appendCommand entry).
Proof.
  intros st. split; [apply asksVersionOnce_refl|].
  split; [now exists [entry] | now exists []].
Qed.

Lemma Growing_defer (f : Sys → Sys) : Growing (defer f).
Proof.
  intros st. split; [apply asksVersionOnce_refl|].
  split; [exists []; simpl; now rewrite app_nil_r | now exists [f]].
Qed.

Lemma Growing_runLogged (cmd : Cmd) : isProbe cmd = false → Growing (runLogged cmd).
Proof.
  intros Hcmd. unfold runLogged.
  apply Growing_bind; [apply Growing_appendCommand|]. intros _.
  apply Growing_tryW. intros w. now apply asksVersionOnce_Run.
Qed.

Lemma isProbe_edit (k : kustomize) (rest : list string) (env : list string) :
  isProbe (editCommand k ("edit" :: rest)) = false
  ∧ isProbe (withEnv (editCommand k ("edit" :: rest)) env) = false.
Proof. split; reflexivity. Qed.

Lemma append_loop {A} (f : A → string) (l : list A) (base : list string) :
  fold_left (fun args x => args ++ [f x]) l base = base ++ map f l.
Proof.
  revert base. induction l as [|x l IH]; intros base; simpl.
  - now rewrite app_nil_r.
  - now rewrite IH, <- app_assoc.
Qed.

Lemma flag_app (b : bool) (name : string) (args : list string) :
  flag b name args = args ++ (if b then [name] else []).
Proof. destruct b; simpl; [reflexivity | now rewrite app_nil_r]. Qed.

Lemma replicaArgs_app (replicas : list KustomizeReplica) (base args : list string) :
  replicaArgs replicas base = inr args → ∃ rest, args = base ++ rest.
Proof.
  revert base. induction replicas as [|r rs IH]; intros base; simpl.
  - intros [= <-]. exists []. now rewrite app_nil_r.
  - destruct (GetIntCount r) as [err|count]; [discriminate|].
    intros Hrest. destruct (IH _ Hrest) as [rest ->].
    eexists. now rewrite <- app_assoc.
Qed.

Ltac growing :=
  repeat first
    [ apply Growing_ret | apply Growing_fail | apply Growing_fromResult
    | apply Growing_readSys | apply Growing_onSys | apply Growing_logM
    | apply Growing_appendCommand | apply Growing_defer
    | apply Growing_when
    | apply Growing_runLogged; reflexivity
    | apply Growing_bind; [|intros ?] ].

Lemma Growing_stepNamePrefix (k : kustomize) (opts : ApplicationSourceKustomize) :
  Growing (stepNamePrefix k opts).
Proof. unfold stepNamePrefix. growing. Qed.

Lemma Growing_stepNameSuffix (k : kustomize) (opts : ApplicationSourceKustomize) :
  Growing (stepNameSuffix k opts).
Proof. unfold stepNameSuffix. growing. Qed.

Lemma Growing_stepNamespace (k : kustomize) (opts : ApplicationSourceKustomize) :
  Growing (stepNamespace k opts).
Proof. unfold stepNamespace. growing. Qed.

Lemma Growing_stepImages (k : kustomize) (opts : ApplicationSourceKustomize)
    (envVars : option EnvVars) :
  Growing (stepImages k opts envVars).
Proof. unfold stepImages. rewrite append_loop. growing. Qed.

Lemma Growing_stepReplicas (k : kustomize) (opts : ApplicationSourceKustomize) :
  Growing (stepReplicas k opts).
Proof.
  unfold stepReplicas. apply Growing_when.
  apply (Growing_bind_where (fun args => ∃ rest, args = ["edit"; "set"; "replicas"] ++ rest)).
  - growing.
  - intros st args st'. unfold fromResult.
    destruct (replicaArgs (Replicas opts) ["edit"; "set"; "replicas"]) as [err|args'] eqn:Hr;
      [discriminate|].
    intros [= <- _]. exact (replicaArgs_app _ _ _ Hr).
  - intros args [rest ->]. growing.
Qed.

Lemma Growing_stepCommonLabels (k : kustomize) (opts : ApplicationSourceKustomize)
    (envVars : option EnvVars) :
  Growing (stepCommonLabels k opts envVars).
Proof.
  unfold stepCommonLabels. rewrite !flag_app. apply Growing_when.
  apply Growing_bind.
  - apply Growing_liftW. apply asksVersionOnce_mapToEditAddArgs.
  - intros pairs. growing.
Qed.

Lemma Growing_stepCommonAnnotations (k : kustomize) (opts : ApplicationSourceKustomize)
    (envVars : option EnvVars) :
  Growing (stepCommonAnnotations k opts envVars).
Proof.
  unfold stepCommonAnnotations. rewrite !flag_app. apply Growing_when.
  apply Growing_bind.
  - apply Growing_liftW. apply asksVersionOnce_mapToEditAddArgs.
  - intros pairs. growing.
Qed.

Lemma Growing_stepPatches (k : kustomize) (opts : ApplicationSourceKustomize) :
  Growing (stepPatches k opts).
Proof.
  unfold stepPatches. apply Growing_when.
  apply Growing_bind; [growing|]. intros kustFile.
  destruct (String.eqb kustFile ""); [growing|].
  apply Growing_bind; [growing|]. intros b.
  apply Growing_bind; [growing|]. intros [| | | | | |kMap| |]; try growing.
  match goal with |- Growing (match ?werr with _ => _ end) => destruct werr end; growing.
Qed.

Lemma Growing_foundComponentsLoop (k : kustomize) (components found : list string) :
  Growing (foundComponentsLoop k components found).
Proof.
  revert found. induction components as [|c rest IH]; intros found; simpl.
  - growing.
  - destruct (filepath_Rel (repoRoot k) (filepath_Join (path k) c)); [growing|].
    apply Growing_bind; [growing|]. intros [err|]; [|apply IH].
    apply Growing_bind; [growing|]. intros _. apply IH.
Qed.

Lemma Growing_stepComponents (k : kustomize) (opts : ApplicationSourceKustomize)
    (env : list string) :
  Growing (stepComponents k opts env).
Proof.
  unfold stepComponents. apply Growing_when.
  apply Growing_bind; [apply Growing_liftW, asksVersionOnce_getSemverSafe|].
  intros ver. destruct (semver.LessThan ver semver.v3_7_0); [growing|].
  apply Growing_bind; [|intros found; growing].
  destruct (IgnoreMissingComponents opts); [|growing].
  apply Growing_bind; [growing|]. intros oerr.
  apply Growing_bind; [growing|]. intros _.
  destruct oerr; [growing | apply Growing_foundComponentsLoop].
Qed.

Lemma Growing_stepsBeforeComponents (k : kustomize) (opts : ApplicationSourceKustomize)
    (envVars : option EnvVars) :
  Growing (stepsBeforeComponents k opts envVars).
Proof.
  unfold stepsBeforeComponents.
  repeat (apply Growing_bind; [|intros _]);
    auto using Growing_stepNamePrefix, Growing_stepNameSuffix, Growing_stepImages,
      Growing_stepReplicas, Growing_stepCommonLabels, Growing_stepCommonAnnotations,
      Growing_stepNamespace, Growing_stepPatches.
Qed.

Lemma Growing_buildEnviron (k : kustomize) (envVars : option EnvVars) :
  Growing (buildEnviron k envVars).
Proof.
  unfold buildEnviron. apply Growing_bind; [growing|]. intros env.
  apply Growing_bind.
  { apply Growing_tryW. intros w.
    destruct (Creds_Environ (creds k) (sys w)) as [r s]. apply asksVersionOnce_sys. }
  intros environ. apply Growing_bind; [growing|]. intros _.
  apply Growing_bind; [|growing].
  destruct (negb (String.eqb (repo k) "") && IsHTTPSURL (repo k)); [|growing].
  destruct (url_Parse (repo k)) as [err|host]; [growing|].
  apply Growing_bind; [growing|]. intros [err|caPath]; [growing|].
  destruct (String.eqb caPath ""); growing.
Qed.

Lemma parseKustomizeBuildOptions_head (k : kustomize) (buildOptions : string)
    (buildOpts : option BuildOpts) (w : World) :
  ∃ rest, (parseKustomizeBuildOptions k buildOptions buildOpts w).1
          = "build" :: path k :: rest.
Proof.
  unfold parseKustomizeBuildOptions. destruct buildOpts as [bo|]; [|eexists; reflexivity].
  destruct (getSemverSafe k w) as [ver w'].
  destruct (negb (semver.LessThan ver semver.v5_3_0) && isHelmEnabled buildOptions);
    [|eexists; reflexivity].
  cbn [fst].
  assert (∀ l base, ∃ rest,
            fold_left (fun params v => params ++ ["--helm-api-versions"; v]) l
                      ("build" :: path k :: base)
            = "build" :: path k :: rest) as Hloop.
  { induction l as [|v l IH]; intros base; simpl; [eexists; reflexivity | apply IH]. }
  destruct (negb (String.eqb (KubeVersion bo) "")); apply Hloop.
Qed.

Lemma Growing_stepBuild (k : kustomize) (kustomizeOptions : option KustomizeOptions)
    (buildOpts : option BuildOpts) (env : list string) :
  Growing (stepBuild k kustomizeOptions buildOpts env).
Proof.
  unfold stepBuild.
  apply (Growing_bind_where
           (fun cmd => ∃ rest, Args cmd = getBinaryPath k :: "build" :: rest)).
  - destruct kustomizeOptions as [ko|]; [|growing].
    destruct (negb (String.eqb (BuildOptions ko) "")); [|growing].
    apply Growing_bind; [|intros params; growing].
    apply Growing_liftW. apply asksVersionOnce_parseKustomizeBuildOptions.
  - intros st cmd st'.
    destruct kustomizeOptions as [ko|];
      [destruct (negb (String.eqb (BuildOptions ko) ""))|];
      try (intros [= <- _]; eexists; reflexivity).
    unfold bind, liftW, ret.
    destruct (parseKustomizeBuildOptions_head k (BuildOptions ko) buildOpts (world st))
      as [rest Hhead].
    destruct (parseKustomizeBuildOptions k (BuildOptions ko) buildOpts (world st))
      as [params w'].
    cbn [fst] in Hhead. subst params. intros [= <- _]. eexists. reflexivity.
  - intros cmd [rest Hargs].
    apply Growing_bind; [|intros out; growing].
    apply Growing_runLogged. unfold isProbe. cbn [Args withDir withEnv].
    now rewrite Hargs.
Qed.

Lemma Growing_afterEnviron (k : kustomize) (opts : option ApplicationSourceKustomize)
    (kustomizeOptions : option KustomizeOptions) (envVars : option EnvVars)
    (buildOpts : option BuildOpts) (env : list string) :
  Growing (bind match opts with
                | Some opts =>
                    bind (stepsBeforeComponents k opts envVars)
                         (fun _ => stepComponents k opts env)
                | None => ret tt
                end
                (fun _ => stepBuild k kustomizeOptions buildOpts env)).
Proof.
  apply Growing_bind; [|intros _; apply Growing_stepBuild].
  destruct opts as [o|]; [|growing].
  apply Growing_bind; [apply Growing_stepsBeforeComponents|]. intros _.
  apply Growing_stepComponents.
Qed.

Lemma Growing_buildBody (k : kustomize) (opts : option ApplicationSourceKustomize)
    (kustomizeOptions : option KustomizeOptions) (envVars : option EnvVars)
    (buildOpts : option BuildOpts) :
  Growing (buildBody k opts kustomizeOptions envVars buildOpts).
Proof.
  unfold buildBody.
  apply Growing_bind; [apply Growing_buildEnviron|]. intros env.
  apply Growing_afterEnviron.
Qed.

(** ** The customization steps as a plan *)

Lemma runLogged_step (cmd : Cmd) (st : BuildState) :
  runLogged cmd st
  = ((executil_Run cmd (sys (world st))).1,
     {| world := {| sys := (executil_Run cmd (sys (world st))).2;
                    invocations := invocations (world st) ++ [cmd];
                    semVer := semVer (world st);
                    logs := logs (world st) |};
        commands := commands st ++ [GetCommandArgsToLog cmd];
        deferred := deferred st |}).
Proof.
  msteps. unfold Run. cbn [world sys commands deferred invocations semVer logs].
  destruct (executil_Run cmd (sys (world st))) as [r s]. reflexivity.
Qed.

Lemma runPlan_app (l1 l2 : list Cmd) (st : BuildState) :
  runPlan (l1 ++ l2) st = bind (runPlan l1) (fun _ => runPlan l2) st.
Proof.
  revert st. induction l1 as [|c l1 IH]; intros st; [reflexivity|].
  simpl runPlan. rewrite bind_assoc, !(bind_run (runLogged c)).
  destruct (runLogged c st) as [[e|out] st']; [reflexivity | apply IH].
Qed.

Lemma runPlan_semVer (plan : list Cmd) (st : BuildState) :
  semVer (world (runPlan plan st).2) = semVer (world st).
Proof.
  revert st. induction plan as [|c plan IH]; intros st; [reflexivity|].
  simpl runPlan. unfold bind. rewrite runLogged_step.
  destruct (executil_Run c (sys (world st))) as [[e|out] s]; [reflexivity|].
  cbn [fst snd]. now rewrite IH.
Qed.

(** Two steps that are plans on the states where the version is [ver]
    compose into the plan that joins them. *)
Lemma plans_compose (ver : Version) (m1 m2 : M unit) (l1 l2 : list Cmd) :
  (∀ st, semVer (world st) = Some ver → m1 st = runPlan l1 st) →
  (∀ st, semVer (world st) = Some ver → m2 st = runPlan l2 st) →
  ∀ st, semVer (world st) = Some ver →
        bind m1 (fun _ => m2) st = runPlan (l1 ++ l2) st.
Proof.
  intros H1 H2 st Hver. rewrite runPlan_app. unfold bind. rewrite (H1 st Hver).
  pose proof (runPlan_semVer l1 st) as Hkeep.
  destruct (runPlan l1 st) as [[e|[]] st']; [reflexivity|].
  apply H2. cbn [snd] in Hkeep. now rewrite Hkeep.
Qed.

Lemma single_step_plan (b : bool) (cmd : Cmd) (st : BuildState) :
  when b (bind (runLogged cmd) (fun _ => ret tt)) st = runPlan (onlyIf b cmd) st.
Proof.
  destruct b; [|reflexivity]. simpl. unfold bind.
  destruct (runLogged cmd st) as [[e|out] st']; reflexivity.
Qed.

Lemma mapToEditAddArgs_known (val : gmap string string) (w : World) (ver : Version) :
  semVer w = Some ver → mapToEditAddArgs val w = (encodePairs ver val, w).
Proof.
  intros Hver. unfold mapToEditAddArgs, encodePairs.
  rewrite (getSemverSafe_cached _ _ _ Hver).
  destruct (semver.LessThan ver semver.v3_8_5).
  - now rewrite join_all.
  - now rewrite separate_loop.
Qed.

Lemma stepsBeforeComponents_plan (k : kustomize) (opts : ApplicationSourceKustomize)
    (envVars : option EnvVars) (ver : Version) (replicas : list string)
    (st : BuildState) :
  Patches opts = [] →
  replicaArgs (Replicas opts) ["edit"; "set"; "replicas"] = inr replicas →
  semVer (world st) = Some ver →
  stepsBeforeComponents k opts envVars st
  = runPlan (plannedEdits k opts envVars ver replicas) st.
Proof.
  intros Hpatches Hreplicas. revert st.
  unfold stepsBeforeComponents, plannedEdits.
  repeat (apply plans_compose; [intros st _; apply single_step_plan|]).
  - apply plans_compose.
    { intros st _. unfold stepImages. rewrite append_loop. apply single_step_plan. }
    apply plans_compose.
    { intros st _. unfold stepReplicas. rewrite Hreplicas.
      destruct (0 <? length (Replicas opts))%nat; [|reflexivity].
      simpl. unfold bind at 1. cbn [fromResult ret].
      unfold bind. destruct (runLogged (editCommand k replicas) st) as [[e|out] st'];
        reflexivity. }
    apply plans_compose.
    { intros st Hver. unfold stepCommonLabels. rewrite !flag_app, <- ?app_assoc.
      destruct (0 <? size (CommonLabels opts))%nat; [|reflexivity].
      simpl when. unfold bind at 1. unfold liftW.
      rewrite (mapToEditAddArgs_known _ _ _ Hver).
      destruct st as [w c d]. cbn [world commands deferred onlyIf runPlan].
      rewrite <- ?app_assoc. cbn [app].
      unfold bind. now destruct (runLogged _ _) as [[e|out] st']. }
    apply plans_compose.
    { intros st Hver. unfold stepCommonAnnotations. rewrite !flag_app, <- ?app_assoc.
      destruct (0 <? size (CommonAnnotations opts))%nat; [|reflexivity].
      simpl when. unfold bind at 1. unfold liftW.
      rewrite (mapToEditAddArgs_known _ _ _ Hver).
      destruct st as [w c d]. cbn [world commands deferred onlyIf runPlan].
      rewrite <- ?app_assoc. cbn [app].
      unfold bind. now destruct (runLogged _ _) as [[e|out] st']. }
    intros st Hver.
    rewrite <- (app_nil_r (onlyIf _ _)).
    apply (plans_compose ver); [intros st' _; apply single_step_plan | | exact Hver].
    intros st' _. unfold stepPatches. now rewrite Hpatches.
Qed.

Lemma allSucceed_nil (s : Sys) : allSucceed [] s.
Proof. intros [|? ?] cmd after Heq; discriminate. Qed.

Lemma allSucceed_cons (cmd : Cmd) (cmds : list Cmd) (s : Sys) (out : string) :
  (executil_Run cmd s).1 = inr out →
  allSucceed cmds (executil_Run cmd s).2 →
  allSucceed (cmd :: cmds) s.
Proof.
  intros Hcmd Hrest [|c before] x after Heq.
  - injection Heq as <- _. now exists out.
  - injection Heq as <- Heq. apply (Hrest before x after Heq).
Qed.

Lemma runPlan_outcome (plan : list Cmd) (st : BuildState) :
  ∃ ran rest,
    plan = ran ++ rest
    ∧ invocations (world (runPlan plan st).2) = invocations (world st) ++ ran
    ∧ commands (runPlan plan st).2 = commands st ++ map GetCommandArgsToLog ran
    ∧ sys (world (runPlan plan st).2) = sysAfter ran (sys (world st))
    ∧ match (runPlan plan st).1 with
      | inr _ => rest = [] ∧ allSucceed ran (sys (world st))
      | inl err =>
          ∃ before failing,
            ran = before ++ [failing]
            ∧ allSucceed before (sys (world st))
            ∧ (executil_Run failing (sysAfter before (sys (world st)))).1 = inl err
      end.
Proof.
  revert st. induction plan as [|c plan IH]; intros st.
  - exists [], []. simpl. rewrite !app_nil_r. repeat split. apply allSucceed_nil.
  - simpl runPlan. rewrite bind_run, runLogged_step.
    destruct (executil_Run c (sys (world st))) as [[err|out] s] eqn:Hrun; cbn [fst snd].
    + exists [c], plan. cbn. rewrite Hrun. repeat split.
      exists [], c. cbn. rewrite Hrun. repeat split. apply allSucceed_nil.
    + match goal with |- context [runPlan plan ?st1] =>
        destruct (IH st1) as (ran & rest & -> & Hi & Hc & Hs & Hres) end.
      exists (c :: ran), rest. cbn in Hi, Hc, Hs.
      rewrite Hi, Hc, Hs, <- !app_assoc. cbn [sysAfter fold_left]. rewrite Hrun.
      repeat split.
      destruct (runPlan (ran ++ rest) _).1 as [err|[]].
      * destruct Hres as (before & failing & -> & Hbefore & Herr).
        exists (c :: before), failing. cbn [sysAfter fold_left] in *. rewrite Hrun.
        repeat split; [|exact Herr].
        apply (allSucceed_cons c before _ out); now rewrite Hrun.
      * destruct Hres as [-> Hall]. split; [reflexivity|].
        apply (allSucceed_cons c ran _ out); now rewrite Hrun.
Qed.

(** X1. The customization steps run in the fixed order and stop at the first
    command that fails. With a known version [ver], no patches and replica
    counts that resolve, the steps before the components run a first part
    [ran] of the planned [kustomize edit] commands (prefix, suffix, images,
    replicas, labels, annotations, namespace: one for each field that is
    set), in that order, each on the world the one before it left, and each
    recorded in [commands]. When the steps succeed, the whole plan has been
    run and every command succeeded; when they fail, every command but the
    last one run succeeded, the last one failed with the error returned, and
    the rest of the plan is not run. *)
Theorem edits_run_in_order_until_failure (k : kustomize)
    (opts : ApplicationSourceKustomize) (envVars : option EnvVars) (ver : Version)
    (replicas : list string) (st : BuildState) :
  Patches opts = [] →
  replicaArgs (Replicas opts) ["edit"; "set"; "replicas"] = inr replicas →
  semVer (world st) = Some ver →
  ∃ ran rest,
    plannedEdits k opts envVars ver replicas = ran ++ rest
    ∧ invocations (world (stepsBeforeComponents k opts envVars st).2)
      = invocations (world st) ++ ran
    ∧ commands (stepsBeforeComponents k opts envVars st).2
      = commands st ++ map GetCommandArgsToLog ran
    ∧ sys (world (stepsBeforeComponents k opts envVars st).2)
      = sysAfter ran (sys (world st))
    ∧ match (stepsBeforeComponents k opts envVars st).1 with
      | inr _ => rest = [] ∧ allSucceed ran (sys (world st))
      | inl err =>
          ∃ before failing,
            ran = before ++ [failing]
            ∧ allSucceed before (sys (world st))
            ∧ (executil_Run failing (sysAfter before (sys (world st)))).1 = inl err
      end.
Proof.
  intros Hpatches Hreplicas Hver.
  rewrite (stepsBeforeComponents_plan k opts envVars ver replicas st
             Hpatches Hreplicas Hver).
  apply runPlan_outcome.
Qed.

(** ** The replicas *)

(** X2. A replica count that cannot be resolved ends the build before the
    replicas command, and nothing is run or recorded for the step: the state
    is the one the step started from. *)
Theorem unresolved_replica_runs_nothing (k : kustomize)
    (opts : ApplicationSourceKustomize) (st : BuildState)
    (before after : list KustomizeReplica) (replica : KustomizeReplica) (err : error) :
  Replicas opts = before ++ replica :: after →
  Forall (fun r => ∃ count, GetIntCount r = inr count) before →
  GetIntCount replica = inl err →
  stepReplicas k opts st = (inl err, st).
Proof.
  intros Hsplit Hbefore Hfail. unfold stepReplicas. rewrite Hsplit.
  assert (∀ base, replicaArgs (before ++ replica :: after) base = inl err) as Hargs.
  { clear Hsplit. induction Hbefore as [|r rs [count Hr] _ IH]; intros base; simpl.
    - now rewrite Hfail.
    - rewrite Hr. apply IH. }
  rewrite Hargs.
  destruct before; reflexivity.
Qed.

(** X3. When every count resolves, the arguments of [edit set replicas] are
    one [name=count] for each replica, in the order of the list. *)
Theorem resolved_replicas_in_order (replicas : list KustomizeReplica)
    (counts : list Z) (base : list string) :
  Forall2 (fun r count => GetIntCount r = inr count) replicas counts →
  replicaArgs replicas base
  = inr (base ++ zip_with (fun r count => replicaArg (replicaName r) count)
                          replicas counts).
Proof.
  intros Hall. revert base.
  induction Hall as [|r count rs cs Hr _ IH]; intros base; simpl.
  - now rewrite app_nil_r.
  - rewrite Hr, IH, <- app_assoc. reflexivity.
Qed.

(** ** The components *)

Lemma sameButLogs_refl (st : BuildState) : sameButLogs st st.
Proof. repeat split. Qed.

(** X4. With [IgnoreMissingComponents], when every component path resolves
    relative to the repository root, the loop keeps exactly the components
    that exist under the root, in their order, and touches nothing but the
    log. *)
Theorem found_components_are_the_existing_ones (k : kustomize)
    (components found : list string) (st : BuildState) :
  Forall (fun c => ∃ resolvedPath,
            filepath_Rel (repoRoot k) (filepath_Join (path k) c) = inr resolvedPath)
         components →
  ∃ st',
    foundComponentsLoop k components found st
    = (inr (found ++ List.filter (componentFound k (sys (world st))) components), st')
    ∧ sameButLogs st st'.
Proof.
  revert found st. induction components as [|c rest IH]; intros found st Hall.
  - exists st. simpl. rewrite app_nil_r. split; [reflexivity | apply sameButLogs_refl].
  - inversion Hall as [|? ? [resolvedPath Hrel] Hrest]; subst.
    simpl foundComponentsLoop. simpl List.filter. unfold componentFound at 1.
    rewrite Hrel. msteps.
    destruct (Root_Stat (repoRoot k) resolvedPath (sys (world st))) as [serr|].
    + destruct (IH found
                  {| world := logf (resolvedPath +:+ " component directory does not exist")
                                   (world st);
                     commands := commands st; deferred := deferred st |} Hrest)
        as (st' & Hrun & Hsame).
      exists st'. split; [exact Hrun | exact Hsame].
    + destruct (IH (found ++ [c]) st Hrest) as (st' & Hrun & Hsame).
      exists st'. split; [|exact Hsame].
      rewrite Hrun, <- app_assoc. reflexivity.
Qed.

(** X5. A component path that cannot be made relative to the repository root
    ends the build with the error "kustomize components path failed", after
    the components before it have been checked. *)
Theorem unresolvable_component_path_fails (k : kustomize)
    (before after found : list string) (c : string) (err : error) (st : BuildState) :
  Forall (fun c => ∃ resolvedPath,
            filepath_Rel (repoRoot k) (filepath_Join (path k) c) = inr resolvedPath)
         before →
  filepath_Rel (repoRoot k) (filepath_Join (path k) c) = inl err →
  ∃ st',
    foundComponentsLoop k (before ++ c :: after) found st
    = (inl ("kustomize components path failed: " +:+ err), st')
    ∧ sameButLogs st st'.
Proof.
  intros Hbefore Hfail. revert found st.
  induction Hbefore as [|b bs [resolvedPath Hrel] _ IH]; intros found st.
  - simpl. rewrite Hfail. exists st. split; [reflexivity | apply sameButLogs_refl].
  - simpl foundComponentsLoop. rewrite Hrel. msteps.
    destruct (Root_Stat (repoRoot k) resolvedPath (sys (world st))) as [serr|].
    + destruct (IH found
                  {| world := logf (resolvedPath +:+ " component directory does not exist")
                                   (world st);
                     commands := commands st; deferred := deferred st |})
        as (st' & Hrun & Hsame).
      exists st'. split; [exact Hrun | exact Hsame].
    + apply IH.
Qed.

(** X6. Without [IgnoreMissingComponents], with a version that supports
    components, the step checks nothing: it records and runs one command,
    [edit add component] followed by every listed component, with the
    environment of the build. *)
Theorem components_passed_unchecked (k : kustomize) (opts : ApplicationSourceKustomize)
    (env : list string) (st : BuildState) :
  Components opts ≠ [] →
  IgnoreMissingComponents opts = false →
  semver.LessThan (getSemverSafe k (world st)).1 semver.v3_7_0 = false →
  let cmd := withEnv (editCommand k (["edit"; "add"; "component"] ++ Components opts))
                     env in
  let w := (getSemverSafe k (world st)).2 in
  stepComponents k opts env st
  = (match (executil_Run cmd (sys w)).1 with inl err => inl err | inr _ => inr tt end,
     {| world := {| sys := (executil_Run cmd (sys w)).2;
                    invocations := invocations w ++ [cmd];
                    semVer := semVer w; logs := logs w |};
        commands := commands st ++ [GetCommandArgsToLog cmd];
        deferred := deferred st |}).
Proof.
  intros Hc Hignore Hge cmd w. unfold stepComponents.
  destruct (Components opts) as [|c cs] eqn:Hcs; [congruence|].
  simpl length. cbn [Nat.ltb Nat.leb when]. rewrite Hignore.
  rewrite bind_run. unfold liftW at 1. subst w.
  destruct (getSemverSafe k (world st)) as [v w']. cbn [fst snd] in *.
  rewrite Hge. rewrite bind_run. unfold ret at 1. fold cmd.
  rewrite bind_run, runLogged_step. cbn [world sys commands deferred invocations semVer logs].
  destruct (executil_Run cmd (sys w')) as [[err|out] s]; reflexivity.
Qed.

(** ** The build command *)

Lemma api_versions_loop (l : list string) (base : list string) :
  fold_left (fun params v => params ++ ["--helm-api-versions"; v]) l base
  = base ++ flat_map (fun v => ["--helm-api-versions"; v]) l.
Proof.
  revert base. induction l as [|v l IH]; intros base; simpl.
  - now rewrite app_nil_r.
  - rewrite IH, <- app_assoc. reflexivity.
Qed.

(** X7. The parameters of the build command are [build], the path and the
    fields of the build options text; the Helm flags are added exactly when
    build options are given, the detected version is not below 5.3.0 and the
    text holds [--enable-helm]: the Kubernetes version when it is set, then
    each API version. Without [BuildOpts] the version is not even looked up. *)
Theorem build_parameters (k : kustomize) (buildOptions : string)
    (buildOpts : option BuildOpts) (w : World) :
  parseKustomizeBuildOptions k buildOptions buildOpts w
  = match buildOpts with
    | None => (["build"; path k] ++ Fields buildOptions, w)
    | Some bo =>
        (["build"; path k] ++ Fields buildOptions
         ++ (if negb (semver.LessThan (getSemverSafe k w).1 semver.v5_3_0)
                && isHelmEnabled buildOptions
             then helmFlags bo else []),
         (getSemverSafe k w).2)
    end.
Proof.
  unfold parseKustomizeBuildOptions. destruct buildOpts as [bo|]; [|reflexivity].
  destruct (getSemverSafe k w) as [ver w']. cbn [fst snd].
  destruct (negb (semver.LessThan ver semver.v5_3_0) && isHelmEnabled buildOptions).
  - rewrite api_versions_loop. unfold helmFlags.
    destruct (String.eqb (KubeVersion bo) ""); simpl negb; cbv iota;
      now rewrite <- ?app_assoc.
  - now rewrite app_nil_r.
Qed.

Lemma index_cons (x : string) (c : ascii) (s : string) :
  index 0 x (String c s)
  = if String.prefix x (String c s) then Some 0
    else match index 0 x s with Some n => Some (S n) | None => None end.
Proof. reflexivity. Qed.

Lemma index_decompose (x s : string) (n : nat) :
  index 0 x s = Some n → ∃ a b, s = a +:+ x +:+ b ∧ String.length a = n.
Proof.
  revert n. induction s as [|c s IH]; intros n.
  - simpl. destruct x; [|discriminate]. intros [= <-]. now exists "", "".
  - rewrite index_cons. destruct (String.prefix x (String c s)) eqn:Hp.
    + intros [= <-]. apply prefix_append in Hp as [b Hb]. now exists "", b.
    + destruct (index 0 x s) as [m|]; [|discriminate]. intros [= <-].
      destruct (IH m eq_refl) as (a & b & -> & Hlen).
      exists (String c a), b. split; [reflexivity | simpl; now rewrite Hlen].
Qed.

Lemma index_of_instance (x a b : string) :
  ∃ n, index 0 x (a +:+ x +:+ b) = Some n.
Proof.
  induction a as [|c a [n IH]].
  - rewrite append_empty_l.
    assert (String.prefix x (x +:+ b) = true) as Hp by (apply prefix_append; now exists b).
    destruct (x +:+ b) as [|c s] eqn:Hs.
    + destruct x; [now exists 0 | discriminate].
    + exists 0. rewrite index_cons. now rewrite Hp.
  - rewrite append_cons, index_cons.
    destruct (String.prefix x (String c (a +:+ x +:+ b))); [now exists 0|].
    rewrite IH. now exists (S n).
Qed.

(** X8. Helm rendering counts as enabled exactly when the build options text
    holds [--enable-helm] somewhere, be it inside a longer word. *)
Theorem isHelmEnabled_anywhere (buildOptions : string) :
  isHelmEnabled buildOptions = true
  ↔ ∃ a b, buildOptions = a +:+ "--enable-helm" +:+ b.
Proof.
  unfold isHelmEnabled, strings.Contains, strings.Index. split.
  - destruct (index 0 "--enable-helm" buildOptions) as [n|] eqn:Hi; [|discriminate].
    intros _. destruct (index_decompose _ _ _ Hi) as (a & b & Heq & _). now exists a, b.
  - intros (a & b & ->).
    destruct (index_of_instance "--enable-helm" a b) as [n ->]. reflexivity.
Qed.

(** ** The environment, the credentials and the deferred calls *)

Lemma caInfo_step (k : kustomize) (environ : list string) (st : BuildState) :
  ∃ lines,
    (if negb (String.eqb (repo k) "") && IsHTTPSURL (repo k) then
       match url_Parse (repo k) with
       | inl err =>
           bind (logM ("Could not parse URL " +:+ repo k +:+ ": " +:+ err))
                (fun _ => ret environ)
       | inr host =>
           bind (readSys (GetCertBundlePathForRepository host))
             (fun caPath =>
                match caPath with
                | inl err =>
                    bind (logM ("Could not get CA bundle path for " +:+ host
                                +:+ ": " +:+ err))
                         (fun _ => ret environ)
                | inr caPath =>
                    if String.eqb caPath "" then
                      bind (logM ("No caCert found for repo " +:+ host))
                           (fun _ => ret environ)
                    else ret (environ ++ ["GIT_SSL_CAINFO=" +:+ caPath])
                end)
       end
     else ret environ) st
    = (inr (environ ++ caInfo k (sys (world st))),
       {| world := {| sys := sys (world st); invocations := invocations (world st);
                      semVer := semVer (world st);
                      logs := logs (world st) ++ lines |};
          commands := commands st; deferred := deferred st |}).
Proof.
  unfold caInfo. destruct st as [[s i v l] c d].
  destruct (negb (String.eqb (repo k) "") && IsHTTPSURL (repo k)).
  - destruct (url_Parse (repo k)) as [err|host].
    + eexists [_]. cbn. rewrite app_nil_r. reflexivity.
    + rewrite bind_run. unfold readSys. cbn [world sys].
      destruct (GetCertBundlePathForRepository host s) as [err|caPath].
      * eexists [_]. cbn. rewrite app_nil_r. reflexivity.
      * destruct (String.eqb caPath "").
        -- eexists [_]. cbn. rewrite app_nil_r. reflexivity.
        -- exists []. cbn. rewrite app_nil_r. reflexivity.
  - exists []. cbn. rewrite !app_nil_r. reflexivity.
Qed.

Lemma buildEnviron_run (k : kustomize) (envVars : option EnvVars) (st : BuildState) :
  ∃ lines,
    buildEnviron k envVars st
    = match Creds_Environ (creds k) (sys (world st)) with
      | (inl err, s) =>
          (inl err, {| world := setSys s (world st); commands := commands st;
                       deferred := deferred st |})
      | (inr environ, s) =>
          (inr (os_Environ (sys (world st))
                ++ match envVars with Some e => Env_Environ e | None => [] end
                ++ environ ++ caInfo k s),
           {| world := {| sys := s; invocations := invocations (world st);
                          semVer := semVer (world st);
                          logs := logs (world st) ++ lines |};
              commands := commands st;
              deferred := Closer_Close (creds k) :: deferred st |})
      end.
Proof.
  unfold buildEnviron. rewrite bind_run. unfold readSys at 1.
  rewrite bind_run. unfold tryW at 1.
  destruct (Creds_Environ (creds k) (sys (world st))) as [[err|environ] s];
    [exists []; reflexivity|].
  rewrite bind_run. unfold defer at 1. rewrite bind_run.
  match goal with |- context [(if ?b then ?x else ?y) ?st1] =>
    destruct (caInfo_step k environ st1) as [lines Hca] end.
  exists lines. rewrite Hca. unfold ret. cbn [world sys commands deferred setSys
                                              invocations semVer logs].
  destruct envVars; now rewrite <- ?app_assoc.
Qed.

Lemma buildEnviron_ok (k : kustomize) (envVars : option EnvVars) (st : BuildState)
    (environ : list string) (s : Sys) :
  Creds_Environ (creds k) (sys (world st)) = (inr environ, s) →
  ∃ st',
    buildEnviron k envVars st
    = (inr (os_Environ (sys (world st))
            ++ match envVars with Some e => Env_Environ e | None => [] end
            ++ environ ++ caInfo k s), st')
    ∧ sys (world st') = s
    ∧ invocations (world st') = invocations (world st)
    ∧ semVer (world st') = semVer (world st)
    ∧ commands st' = commands st
    ∧ deferred st' = Closer_Close (creds k) :: deferred st.
Proof.
  intros Hcreds. destruct (buildEnviron_run k envVars st) as [lines Hrun].
  rewrite Hcreds in Hrun. eexists. split; [exact Hrun|]. repeat split.
Qed.

(** X9. Preparing the environment fails only when the credentials cannot be
    resolved: a repository URL that does not parse or a CA bundle that cannot
    be looked up is logged and the build goes on. The environment is the one
    of the process, then the variables of [envVars], then those of the
    credentials, then [GIT_SSL_CAINFO] when a bundle is configured; nothing
    is run, and the release of the credentials is deferred. *)
Theorem environment_needs_only_the_credentials (k : kustomize)
    (envVars : option EnvVars) (st : BuildState) (environ : list string) (s : Sys) :
  Creds_Environ (creds k) (sys (world st)) = (inr environ, s) →
  ∃ st',
    buildEnviron k envVars st
    = (inr (os_Environ (sys (world st))
            ++ match envVars with Some e => Env_Environ e | None => [] end
            ++ environ ++ caInfo k s), st')
    ∧ sys (world st') = s
    ∧ invocations (world st') = invocations (world st)
    ∧ semVer (world st') = semVer (world st)
    ∧ commands st' = commands st
    ∧ deferred st' = Closer_Close (creds k) :: deferred st.
Proof. apply buildEnviron_ok. Qed.

(** X10. When the credentials cannot be resolved, [Build] returns that error
    and nothing else, runs no command and defers nothing: the world is the
    one the credentials left. *)
Theorem credentials_failure_runs_nothing (k : kustomize)
    (opts : option ApplicationSourceKustomize) (kustomizeOptions : option KustomizeOptions)
    (envVars : option EnvVars) (buildOpts : option BuildOpts) (w : World)
    (err : error) (s : Sys) :
  Creds_Environ (creds k) (sys w) = (inl err, s) →
  Build k opts kustomizeOptions envVars buildOpts w
  = ({| resObjs := []; resImages := []; resCommands := []; resErr := Some err |},
     setSys s w).
Proof.
  intros Hcreds. unfold Build, buildBody. rewrite bind_run.
  destruct (buildEnviron_run k envVars (initialState w)) as [lines ->].
  cbn [initialState world sys]. rewrite Hcreds. destruct w; reflexivity.
Qed.

Lemma run_deferred_last (more : list (Sys → Sys)) (f : Sys → Sys) (s : Sys) :
  fold_left (fun s g => g s) (more ++ [f]) s = f (fold_left (fun s g => g s) more s).
Proof. now rewrite fold_left_app. Qed.

(** X11. Once the credentials have been resolved, their release is the last
    thing [Build] does, on every way out, whichever step failed. *)
Theorem credentials_always_released (k : kustomize)
    (opts : option ApplicationSourceKustomize) (kustomizeOptions : option KustomizeOptions)
    (envVars : option EnvVars) (buildOpts : option BuildOpts) (w : World)
    (environ : list string) (s : Sys) :
  Creds_Environ (creds k) (sys w) = (inr environ, s) →
  ∃ s', sys (Build k opts kustomizeOptions envVars buildOpts w).2
        = Closer_Close (creds k) s'.
Proof.
  intros Hcreds.
  destruct (buildEnviron_ok k envVars (initialState w) environ s Hcreds)
    as (st0 & Henv & _ & _ & _ & _ & Hd).
  unfold Build, buildBody. rewrite bind_run, Henv.
  match goal with |- context [bind ?m ?f st0] =>
    destruct (Growing_bind m f) with (st := st0) as (_ & _ & [more Hmore]);
      [ destruct opts as [o|]; [|growing];
        apply Growing_bind; [apply Growing_stepsBeforeComponents|]; intros _;
        apply Growing_stepComponents
      | intros _; apply Growing_stepBuild
      | destruct (bind m f st0) as [[e|objs] st] ]
  end;
    cbn [snd] in *; unfold runDeferred; cbn [sys setSys];
    rewrite Hmore, Hd; cbn [initialState deferred];
    rewrite run_deferred_last; eauto.
Qed.

(** ** The version, across a build *)

(** X12. [Build] never forgets a command it ran, keeps a version that is known
    without asking for it again, and asks for a version that is not known at
    most once, whatever steps need it (labels, annotations, components,
    Helm flags). *)
Theorem Build_asks_version_at_most_once (k : kustomize)
    (opts : option ApplicationSourceKustomize) (kustomizeOptions : option KustomizeOptions)
    (envVars : option EnvVars) (buildOpts : option BuildOpts) (w : World) :
  ∃ new,
    invocations (Build k opts kustomizeOptions envVars buildOpts w).2
    = invocations w ++ new
    ∧ match semVer w with
      | Some v =>
          semVer (Build k opts kustomizeOptions envVars buildOpts w).2 = Some v
          ∧ versionProbes new = 0
      | None =>
          (semVer (Build k opts kustomizeOptions envVars buildOpts w).2 = None
           ∧ versionProbes new = 0)
          ∨ (is_Some (semVer (Build k opts kustomizeOptions envVars buildOpts w).2)
             ∧ versionProbes new = 1)
      end.
Proof.
  destruct (Growing_buildBody k opts kustomizeOptions envVars buildOpts (initialState w))
    as (Hw & _ & _).
  unfold Build.
  destruct (buildBody k opts kustomizeOptions envVars buildOpts (initialState w))
    as [[e|objs] st]; exact Hw.
Qed.

(** X13. Once a version has been resolved it is the answer for every
    kustomize binary: a second call, be it for another binary path, returns
    the same version and runs nothing. *)
Theorem getSemverSafe_resolves_once (k1 k2 : kustomize) (w : World) :
  getSemverSafe k2 (getSemverSafe k1 w).2 = getSemverSafe k1 w.
Proof.
  rewrite (getSemverSafe_cached k2 _ _ (getSemverSafe_fills_cache k1 w)).
  now destruct (getSemverSafe k1 w).
Qed.

(** X14. The version that decides how labels and annotations are encoded is
    asked of the default [kustomize] binary, whatever binary path the
    application is configured with: with no version known, the labels step
    first runs [kustomize version --short] and then its own command with the
    configured binary. *)
Theorem labels_ask_the_default_binary (k : kustomize) (opts : ApplicationSourceKustomize)
    (envVars : option EnvVars) (st : BuildState) :
  CommonLabels opts ≠ ∅ →
  semVer (world st) = None →
  ∃ args,
    invocations (world (stepCommonLabels k opts envVars st).2)
    = invocations (world st)
      ++ [Command "kustomize" ["version"; "--short"];
          withDir (Command (getBinaryPath k) ("edit" :: "add" :: "label" :: args)) (path k)].
Proof.
  intros Hlabels Hver. unfold stepCommonLabels.
  assert ((0 <? size (CommonLabels opts))%nat = true) as ->.
  { apply Nat.ltb_lt. destruct (size (CommonLabels opts)) eqn:Hsize; [|lia].
    apply map_size_empty_iff in Hsize. contradiction. }
  rewrite !flag_app. cbn [when]. rewrite bind_run. unfold liftW.
  pose proof (getSemverSafe_invocations zeroKustomize (world st)) as Hinv.
  rewrite Hver in Hinv. unfold mapToEditAddArgs.
  destruct (getSemverSafe zeroKustomize (world st)) as [ver w']. cbn [snd] in Hinv.
  destruct (semver.LessThan ver semver.v3_8_5);
    rewrite bind_run, runLogged_step;
    cbn [world sys commands deferred invocations semVer logs];
    (destruct (executil_Run _ (sys w')) as [[err|out] s]);
    cbn [fst snd world invocations]; rewrite Hinv, <- !app_assoc;
    eexists; reflexivity.
Qed.

(** X15. When the version cannot be resolved, the fallback opens every
    version gate: components are allowed, labels and annotations get one
    argument for each pair, Helm flags are allowed; the failure is logged. *)
Theorem fallback_version_opens_every_gate (k : kustomize) (w w' : World) (err : error) :
  semVer w = None →
  getSemver k w = (inl err, w') →
  (getSemverSafe k w).1 = unknownVersion
  ∧ semver.LessThan (getSemverSafe k w).1 semver.v3_7_0 = false
  ∧ semver.LessThan (getSemverSafe k w).1 semver.v3_8_5 = false
  ∧ semver.LessThan (getSemverSafe k w).1 semver.v5_3_0 = false
  ∧ logs (getSemverSafe k w).2
    = logs w' ++ ["Failed to parse kustomize version: " +:+ err].
Proof.
  intros Hc Hget. unfold getSemverSafe. rewrite Hc, Hget. repeat split.
Qed.

(** ** The image list, whatever the order of the visit *)

(** X16. The image list does not depend on the order in which keys and
    objects are visited: sorting any arrangement of the images found gives
    the list [getImageParameters] returns. *)
Theorem image_list_ignores_visit_order (objs : list (gmap string any))
    (raw : list Image) :
  raw ≡ₚ flat_map getImages objs →
  sort_Strings raw = getImageParameters objs.
Proof.
  intros Hraw. symmetry. apply sort_Strings_unique.
  - now rewrite getImageParameters_Permutation.
  - apply getImageParameters_sorted.
Qed.

Lemma flat_map_Permutation {A B} (f : A → list B) (l l' : list A) :
  l ≡ₚ l' → flat_map f l ≡ₚ flat_map f l'.
Proof.
  induction 1 as [|x l l' _ IH|x y l|l1 l2 l3 _ IH1 _ IH2]; simpl.
  - reflexivity.
  - now rewrite IH.
  - rewrite !app_assoc. f_equiv. apply Permutation_app_comm.
  - now rewrite IH1.
Qed.

(** X17. Handing the same objects to the scan in another order gives the same
    image list. *)
Theorem image_list_ignores_object_order (objs objs' : list (gmap string any)) :
  objs ≡ₚ objs' → getImageParameters objs = getImageParameters objs'.
Proof.
  intros Hperm. apply (StronglySorted_unique string_le).
  - apply getImageParameters_sorted.
  - apply getImageParameters_sorted.
  - rewrite !getImageParameters_Permutation. now apply flat_map_Permutation.
Qed.

(** ** The kustomization file *)

(** X18. [findKustomizeFile] returns the first of [kustomization.yaml],
    [kustomization.yml] and [Kustomization] that exists in the directory,
    and the empty string exactly when none of them exists. *)
Theorem findKustomizeFile_first_existing (dir : string) (s : Sys) :
  let missing := fun name => ∃ err, os_Stat (filepath_Join dir name) s = inl err in
  match findKustomizeFile dir s with
  | EmptyString => Forall missing KustomizationNames
  | file =>
      IsKustomization file = true
      ∧ (∃ mode, os_Stat (filepath_Join dir file) s = inr mode)
      ∧ ∃ before after,
          KustomizationNames = before ++ file :: after ∧ Forall missing before
  end.
Proof.
  intros missing. unfold findKustomizeFile, KustomizationNames.
  destruct (os_Stat (filepath_Join dir "kustomization.yaml") s) as [e1|m1] eqn:H1.
  2:{ split; [reflexivity|]. split; [now exists m1|].
      exists [], ["kustomization.yml"; "Kustomization"]. split; [reflexivity | constructor]. }
  destruct (os_Stat (filepath_Join dir "kustomization.yml") s) as [e2|m2] eqn:H2.
  2:{ split; [reflexivity|]. split; [now exists m2|].
      exists ["kustomization.yaml"], ["Kustomization"]. split; [reflexivity|].
      repeat constructor. now exists e1. }
  destruct (os_Stat (filepath_Join dir "Kustomization") s) as [e3|m3] eqn:H3.
  2:{ split; [reflexivity|]. split; [now exists m3|].
      exists ["kustomization.yaml"; "kustomization.yml"], []. split; [reflexivity|].
      repeat constructor; [now exists e1 | now exists e2]. }
  repeat constructor; [now exists e1 | now exists e2 | now exists e3].
Qed.

(** What the patches step can do: nothing (no patches), fail before the
    write with the state untouched, or write the file once. *)
Lemma stepPatches_cases (k : kustomize) (opts : ApplicationSourceKustomize)
    (st st' : BuildState) (r : error + unit) :
  stepPatches k opts st = (r, st') →
  (Patches opts = [] ∧ r = inr tt ∧ st' = st)
  ∨ (∃ err, r = inl err ∧ st' = st)
  ∨ ∃ text mode werr s,
      os_WriteFile (filepath_Join (path k) (findKustomizeFile (path k) (sys (world st))))
                   text mode (sys (world st)) = (werr, s)
      ∧ r = match werr with
            | Some err =>
                inl ("failed to write kustomization.yaml with updated 'patches' field: "
                     +:+ err)
            | None => inr tt
            end
      ∧ st' = {| world := setSys s (world st);
                 commands := match werr with
                             | Some _ => commands st
                             | None => commands st ++ [patchesCommandEntry]
                             end;
                 deferred := deferred st |}.
Proof.
  unfold stepPatches. destruct (Patches opts) as [|p ps]; [intros [= <- <-]; now left|].
  cbn [length Nat.ltb Nat.leb when]. rewrite bind_run. unfold readSys at 1.
  destruct (String.eqb (findKustomizeFile (path k) (sys (world st))) "");
    [intros [= <- <-]; right; left; now eexists|].
  rewrite bind_run. rewrite (bind_run (readSys _)). unfold readSys at 1.
  match goal with |- context [os_ReadFile ?p ?s] => destruct (os_ReadFile p s) as [e|b] end;
    [intros [= <- <-]; right; left; now eexists|].
  cbn [wrap fromResult]. unfold ret at 1. rewrite bind_run.
  destruct (yaml_Unmarshal b) as [e|kustomization];
    [intros [= <- <-]; right; left; now eexists|].
  cbn [wrap fromResult]. unfold ret at 1.
  destruct kustomization as [| | | | | |kMap| |];
    try (intros [= <- <-]; right; left; now eexists).
  rewrite bind_run.
  destruct (mergePatches kMap (p :: ps)) as [e|kMap'];
    [intros [= <- <-]; right; left; now eexists|].
  cbn [fromResult]. unfold ret at 1. rewrite bind_run.
  destruct (yaml_Marshal kMap') as [e|text];
    [intros [= <- <-]; right; left; now eexists|].
  cbn [wrap fromResult]. unfold ret at 1.
  rewrite bind_run. rewrite (bind_run (readSys _)). unfold readSys at 1.
  match goal with |- context [os_Stat ?p ?s] => destruct (os_Stat p s) as [e|mode] end;
    [intros [= <- <-]; right; left; now eexists|].
  cbn [wrap fromResult]. unfold ret at 1. rewrite bind_run. unfold onSys, liftW.
  match goal with |- context [os_WriteFile ?p ?t ?m ?s] =>
    destruct (os_WriteFile p t m s) as [werr s'] eqn:Hwrite end.
  intros Hrun. right. right. exists text, mode, werr, s'. split; [exact Hwrite|].
  destruct werr; injection Hrun as <- <-; split; reflexivity.
Qed.

(** X19. The patches step never runs a command, whether it succeeds or
    fails, and leaves the version, the log lines and the deferred calls as
    they are. It writes the kustomization file at most once: when it
    succeeds with patches to add, the file has been written and the one
    entry about the patches is recorded; when it fails, the state is the
    one it started from, unless it is the write itself that failed. *)
Theorem patches_step_runs_no_command (k : kustomize)
    (opts : ApplicationSourceKustomize) (st : BuildState) :
  let kustomizationPath :=
    filepath_Join (path k) (findKustomizeFile (path k) (sys (world st))) in
  let result := stepPatches k opts st in
  invocations (world result.2) = invocations (world st)
  ∧ semVer (world result.2) = semVer (world st)
  ∧ logs (world result.2) = logs (world st)
  ∧ deferred result.2 = deferred st
  ∧ match result.1 with
    | inr _ =>
        (Patches opts = [] ∧ result.2 = st)
        ∨ (∃ text mode,
             os_WriteFile kustomizationPath text mode (sys (world st))
             = (None, sys (world result.2)))
          ∧ commands result.2 = commands st ++ [patchesCommandEntry]
    | inl err =>
        result.2 = st
        ∨ (∃ text mode werr,
             os_WriteFile kustomizationPath text mode (sys (world st))
             = (Some werr, sys (world result.2)))
          ∧ commands result.2 = commands st
    end.
Proof.
  intros kustomizationPath result. subst result.
  destruct (stepPatches k opts st) as [r st'] eqn:Hrun. cbn [fst snd].
  destruct (stepPatches_cases k opts st st' r Hrun)
    as [(Hnone & -> & ->) | [(err & -> & ->) | (text & mode & werr & s & Hwrite & -> & ->)]].
  - repeat split. now left.
  - repeat split. now left.
  - destruct werr as [werr|]; cbn [world commands deferred setSys invocations
                                   semVer logs sys]; repeat split;
      right; (split; [|reflexivity]).
    + now exists text, mode, werr.
    + now exists text, mode.
Qed.

(** X20. Without any of the recognized kustomization files in the directory,
    adding patches fails with "kustomization file not found in the path";
    nothing is read, written, run or recorded. *)
Theorem patches_need_a_kustomization_file (k : kustomize)
    (opts : ApplicationSourceKustomize) (st : BuildState) :
  Patches opts ≠ [] →
  Forall (fun name => ∃ err, os_Stat (filepath_Join (path k) name) (sys (world st)) = inl err)
         KustomizationNames →
  stepPatches k opts st = (inl "kustomization file not found in the path", st).
Proof.
  intros Hp Hmissing. unfold stepPatches.
  destruct (Patches opts); [congruence|]. cbn [length Nat.ltb Nat.leb when].
  rewrite bind_run. unfold readSys at 1.
  assert (findKustomizeFile (path k) (sys (world st)) = "") as ->; [|reflexivity].
  unfold findKustomizeFile, KustomizationNames in *.
  inversion Hmissing as [|? ? [e1 H1] Hrest]; subst.
  inversion Hrest as [|? ? [e2 H2] Hrest']; subst.
  inversion Hrest' as [|? ? [e3 H3] _]; subst.
  now rewrite H1, H2, H3.
Qed.

(** X21. A kustomization whose [patches] field is there but is not a sequence
    (a null, a text, a mapping) fails the build with the type of the field in
    the error, and the file is left as it is. *)
Theorem patches_field_must_be_a_sequence (k : kustomize)
    (opts : ApplicationSourceKustomize) (st : BuildState) (b : string)
    (kMap : gmap string any) (field : any) :
  let file := findKustomizeFile (path k) (sys (world st)) in
  Patches opts ≠ [] →
  file ≠ "" →
  os_ReadFile (filepath_Join (path k) file) (sys (world st)) = inr b →
  yaml_Unmarshal b = inr (VMap kMap) →
  kMap !! "patches" = Some field →
  (∀ l, field ≠ VSlice l) →
  stepPatches k opts st
  = (inl ("expected 'patches' field in kustomization.yaml to be []any, but got "
          +:+ typeName field), st).
Proof.
  intros file Hp Hfile Hread Hyaml Hfield Hseq. unfold stepPatches.
  destruct (Patches opts) as [|p ps]; [congruence|].
  cbn [length Nat.ltb Nat.leb when].
  rewrite bind_run. unfold readSys at 1. fold file.
  destruct (String.eqb_spec file "") as [->|_]; [congruence|].
  rewrite bind_run. rewrite (bind_run (readSys _)). unfold readSys at 1.
  rewrite Hread. cbn [wrap fromResult]. unfold ret at 1.
  rewrite bind_run, Hyaml. cbn [wrap fromResult]. unfold ret at 1.
  rewrite bind_run. unfold mergePatches. rewrite Hfield.
  destruct field; try reflexivity. now destruct (Hseq l).
Qed.

(** ** A successful build *)

Lemma stepBuild_command (k : kustomize) (kustomizeOptions : option KustomizeOptions)
    (buildOpts : option BuildOpts) (env : list string) (st : BuildState) :
  ∃ cmd st1 pre rest,
    stepBuild k kustomizeOptions buildOpts env st
    = bind (runLogged cmd) (fun out => fromResult (kube_SplitYAML out)) st1
    ∧ invocations (world st1) = invocations (world st) ++ pre
    ∧ commands st1 = commands st
    ∧ Args cmd = getBinaryPath k :: "build" :: path k :: rest
    ∧ Dir cmd = repoRoot k.
Proof.
  unfold stepBuild.
  destruct kustomizeOptions as [ko|];
    [destruct (negb (String.eqb (BuildOptions ko) ""))|].
  - destruct (parseKustomizeBuildOptions_invocations k (BuildOptions ko) buildOpts
                (world st)) as [pre Hpre].
    destruct (parseKustomizeBuildOptions_head k (BuildOptions ko) buildOpts (world st))
      as [rest Hhead].
    rewrite !bind_assoc, bind_run. unfold liftW.
    destruct (parseKustomizeBuildOptions k (BuildOptions ko) buildOpts (world st))
      as [params w']. cbn [fst snd] in *. subst params.
    rewrite bind_run. unfold ret at 1.
    eexists _, _, pre, rest. split; [reflexivity|]. repeat split. exact Hpre.
  - rewrite bind_run. unfold ret at 1.
    eexists _, _, [], []. split; [reflexivity|]. repeat split. now rewrite app_nil_r.
  - rewrite bind_run. unfold ret at 1.
    eexists _, _, [], []. split; [reflexivity|]. repeat split. now rewrite app_nil_r.
Qed.

(** X22. A build that succeeds has run [kustomize build <path> ...] from the
    repository root as its last command; the objects returned are the
    documents of its output, the images are their scan, and the last entry
    of the returned log is that command, redacted. *)
Theorem successful_build_ends_with_build (k : kustomize)
    (opts : option ApplicationSourceKustomize) (kustomizeOptions : option KustomizeOptions)
    (envVars : option EnvVars) (buildOpts : option BuildOpts) (w : World) :
  resErr (Build k opts kustomizeOptions envVars buildOpts w).1 = None →
  ∃ cmd rest s out earlier earlierEntries,
    Args cmd = getBinaryPath k :: "build" :: path k :: rest
    ∧ Dir cmd = repoRoot k
    ∧ invocations (Build k opts kustomizeOptions envVars buildOpts w).2
      = invocations w ++ earlier ++ [cmd]
    ∧ (executil_Run cmd s).1 = inr out
    ∧ kube_SplitYAML out = inr (resObjs (Build k opts kustomizeOptions envVars buildOpts w).1)
    ∧ resImages (Build k opts kustomizeOptions envVars buildOpts w).1
      = getImageParameters (resObjs (Build k opts kustomizeOptions envVars buildOpts w).1)
    ∧ resCommands (Build k opts kustomizeOptions envVars buildOpts w).1
      = earlierEntries ++ [redact k (GetCommandArgsToLog cmd)].
Proof.
  unfold Build, buildBody. rewrite bind_run.
  pose proof (Growing_buildEnviron k envVars (initialState w)) as ([l0 [Hi0 _]] & [e0 Hc0] & _).
  destruct (buildEnviron k envVars (initialState w)) as [[err|env] st0];
    [discriminate|]. cbn [snd] in Hi0, Hc0.
  rewrite bind_run.
  match goal with |- context [match ?m st0 with _ => _ end] =>
    assert (Growing m) as Hsteps
      by (destruct opts as [o|]; [|growing];
          apply Growing_bind; [apply Growing_stepsBeforeComponents|]; intros _;
          apply Growing_stepComponents);
    destruct (Hsteps st0) as ([l1 [Hi1 _]] & [e1 Hc1] & _);
    destruct (m st0) as [[err|[]] st1]; [discriminate|]
  end.
  cbn [snd] in Hi1, Hc1.
  destruct (stepBuild_command k kustomizeOptions buildOpts env st1)
    as (cmd & st2 & pre & rest & -> & Hi2 & Hc2 & Hargs & Hdir).
  rewrite bind_run, runLogged_step.
  destruct (executil_Run cmd (sys (world st2))) as [[err|out] s'] eqn:Hrun;
    [discriminate|]. cbn [fst snd].
  destruct (kube_SplitYAML out) as [err|objs] eqn:Hsplit; [discriminate|].
  cbn [fromResult ret fst snd resErr resObjs resImages resCommands]. intros _.
  exists cmd, rest, (sys (world st2)), out, (l0 ++ l1 ++ pre),
    (map (redact k) (e0 ++ e1)).
  rewrite Hrun. repeat split; try assumption.
  - unfold runDeferred. cbn [setSys invocations world].
    rewrite Hi2, Hi1, Hi0. cbn [initialState world]. now rewrite <- !app_assoc.
  - cbn [commands]. rewrite Hc2, Hc1, Hc0. cbn [initialState commands app].
    now rewrite map_app.
Qed.

(** X23. With [IgnoreMissingComponents], the close of the repository root
    is deferred before the result of opening it is looked at. When the root
    cannot be opened, the step takes the error return "failed to open the
    repo folder" with [io.Close] already deferred on the root that was not
    opened (the flag is [false]: a nil root); no component has been looked
    at and no command is run or recorded. What becomes of the error when
    [Build] returns is up to that deferred call on a nil root. *)
Theorem unopened_root_is_closed_unchecked (k : kustomize)
    (opts : ApplicationSourceKustomize) (env : list string) (st : BuildState)
    (err : error) (s : Sys) :
  Components opts ≠ [] →
  IgnoreMissingComponents opts = true →
  semver.LessThan (getSemverSafe k (world st)).1 semver.v3_7_0 = false →
  os_OpenRoot (repoRoot k) (sys (getSemverSafe k (world st)).2) = (Some err, s) →
  stepComponents k opts env st
  = (inl ("failed to open the repo folder: " +:+ err),
     {| world := setSys s (getSemverSafe k (world st)).2;
        commands := commands st;
        deferred := io_Close_Root (repoRoot k) false :: deferred st |}).
Proof.
  intros Hc Hignore Hge Hopen.
  unfold stepComponents.
  destruct (Components opts) as [|c cs]; [congruence|].
  cbn [length Nat.ltb Nat.leb when]. rewrite Hignore.
  rewrite bind_run. unfold liftW at 1.
  destruct (getSemverSafe k (world st)) as [v w']. cbn [fst snd] in *.
  rewrite Hge. rewrite !bind_assoc, bind_run. unfold onSys, liftW at 1.
  cbn [world sys]. rewrite Hopen. rewrite bind_run. unfold defer at 1.
  rewrite bind_run. unfold fail at 1. reflexivity.
Qed.

(** ** The image scan, key by key *)

(** X24. Adding a key to an object adds the images of that key, and only
    them, to what the scan finds. *)
Theorem getImages_insert (k : string) (v : any) (object : gmap string any) :
  object !! k = None →
  getImages (<[k := v]> object) ≡ₚ entryImages k v ++ getImages object.
Proof.
  intros Hfresh.
  rewrite !getImages_fold, !map_fold_foldr, !foldr_append_entries.
  rewrite reverse_Permutation, (reverse_Permutation (map_to_list object)).
  rewrite (flat_map_Permutation _ _ _ (map_to_list_insert object k v Hfresh)).
  reflexivity.
Qed.

(** ** Entries of the log that do not name the repository root *)

(** X25. An entry in which the repository root does not occur is returned as
    it is. *)
Theorem redact_without_root (k : kustomize) (entry : string) :
  repoRoot k ≠ "" →
  (∀ p q, entry ≠ p +:+ repoRoot k +:+ q) →
  redact k entry = entry.
Proof.
  intros Hroot Habsent. unfold redact.
  apply (Replaced_functional (repoRoot k) "." entry); [exact Hroot| |].
  - now apply ReplaceAll_Replaced.
  - now apply Replaced_none.
Qed.

(** ** Where the version is read *)

Lemma digits_app (s d r : string) : semver.digits s = (d, r) → s = d +:+ r.
Proof.
  revert d r. induction s as [|c t IH]; intros d r; simpl.
  - now intros [= <- <-].
  - destruct (semver.isDigit c); [|now intros [= <- <-]].
    destruct (semver.digits t) as [d' r'] eqn:Ht. intros [= <- <-].
    rewrite append_cons. f_equal. now apply IH.
Qed.

Lemma dotDigits_app (s g r : string) : semver.dotDigits s = (g, r) → s = g +:+ r.
Proof.
  unfold semver.dotDigits. destruct s as [|c t]; [now intros [= <- <-]|].
  destruct (Ascii.eqb_spec c ".") as [->|Hne].
  - destruct (semver.digits t) as [d r'] eqn:Ht.
    destruct (String.eqb d ""); intros [= <- <-]; [reflexivity|].
    rewrite append_cons. f_equal. now apply digits_app.
  - assert (∀ X (a b : X),
              match c with
              | "."%char => a
              | _ => b
              end = b) as Hother.
    { intros X a b. destruct c as [[] [] [] [] [] [] [] []]; try reflexivity.
      now destruct Hne. }
    rewrite Hother. now intros [= <- <-].
Qed.

Lemma identRest_app (s a r : string) : semver.identRest s = (a, r) → s = a +:+ r.
Proof.
  revert a r. induction s as [|c t IH]; intros a r; simpl.
  - now intros [= <- <-].
  - destruct (semver.isIdent c).
    + destruct (semver.identRest t) as [a' r'] eqn:Ht. intros [= <- <-].
      rewrite append_cons. f_equal. now apply IH.
    + destruct (Ascii.eqb c "."); [|now intros [= <- <-]].
      destruct t as [|c' t']; [now intros [= <- <-]|].
      destruct (semver.isIdent c'); [|now intros [= <- <-]].
      destruct (semver.identRest (String c' t')) as [a' r'] eqn:Ht. intros [= <- <-].
      rewrite append_cons. f_equal. now apply IH.
Qed.

Lemma tagged_app (tag : ascii) (s g r : string) :
  semver.tagged tag s = (g, r) →
  s = semver.withTag (String tag "") g +:+ r.
Proof.
  unfold semver.tagged, semver.withTag.
  destruct s as [|c [|c' t']]; try now intros [= <- <-].
  destruct (Ascii.eqb_spec c tag) as [->|_]; [|now intros [= <- <-]].
  destruct (semver.isIdent c') eqn:Hc'; [|now intros [= <- <-]].
  cbn [andb]. intros Hrest. pose proof (identRest_app _ _ _ Hrest) as Happ.
  simpl in Hrest. rewrite Hc' in Hrest.
  destruct (semver.identRest t') as [a' r']. injection Hrest as <- <-.
  cbn [String.eqb]. rewrite Happ. reflexivity.
Qed.

Lemma matchHere_app (s r : string) (m : semver.Submatch) :
  semver.matchHere s = Some (m, r) → s = semver.m0 m +:+ r.
Proof.
  unfold semver.matchHere.
  set (split := match s with
                | String c t => if Ascii.eqb c "v" then ("v", t) else ("", s)
                | EmptyString => ("", s)
                end).
  assert (s = split.1 +:+ split.2) as Hs.
  { subst split. destruct s as [|c t]; [reflexivity|].
    destruct (Ascii.eqb_spec c "v") as [->|_]; reflexivity. }
  destruct split as [v s1]. cbn [fst snd] in Hs.
  destruct (semver.digits s1) as [g1 r1] eqn:H1.
  destruct (String.eqb g1 ""); [discriminate|].
  destruct (semver.dotDigits r1) as [g2 r2] eqn:H2.
  destruct (semver.dotDigits r2) as [g3 r3] eqn:H3.
  destruct (semver.tagged "-" r3) as [g5 r4] eqn:H5.
  destruct (semver.tagged "+" r4) as [g8 r5] eqn:H8.
  intros [= <- <-]. cbn [semver.m0].
  rewrite Hs, (digits_app _ _ _ H1), (dotDigits_app _ _ _ H2), (dotDigits_app _ _ _ H3),
    (tagged_app _ _ _ _ H5), (tagged_app _ _ _ _ H8).
  now rewrite !append_assoc.
Qed.

(** X26. The version is read at the first digit of the text: what the pattern
    matches is a piece of the text, no digit stands before it, and its first
    group, the major version, holds a digit. *)
Theorem version_is_read_at_the_first_digit (s : string) (m : semver.Submatch) :
  semver.FindStringSubmatch s = Some m →
  ∃ before after,
    s = before +:+ semver.m0 m +:+ after
    ∧ hasDigit before = false
    ∧ hasDigit (semver.m1 m) = true.
Proof.
  induction s as [|c t IH]; simpl semver.FindStringSubmatch.
  - discriminate.
  - destruct (semver.matchHere (String c t)) as [[m' r]|] eqn:Hm.
    + intros [= ->]. exists "", r. split; [now apply matchHere_app|].
      split; [reflexivity|].
      unfold semver.matchHere in Hm.
      destruct (if Ascii.eqb c "v" then ("v", t) else ("", String c t)) as [v s1].
      destruct (semver.digits s1) as [g1 r1] eqn:H1.
      destruct g1 as [|d g1]; [discriminate|].
      cbn [String.eqb] in Hm.
      destruct (semver.dotDigits r1) as [g2 r2].
      destruct (semver.dotDigits r2) as [g3 r3].
      destruct (semver.tagged "-" r3) as [g5 r4].
      destruct (semver.tagged "+" r4) as [g8 r5].
      injection Hm as <- _. cbn [semver.m1 hasDigit].
      destruct s1 as [|c1 t1]; [discriminate|]. simpl in H1.
      destruct (semver.isDigit c1) eqn:Hc1; [|discriminate].
      destruct (semver.digits t1). injection H1 as <- _ _. now rewrite Hc1.
    + intros Hrest. destruct (IH Hrest) as (before & after & -> & Hbefore & Hm1).
      exists (String c before), after. split; [reflexivity|]. split; [|exact Hm1].
      simpl. rewrite Hbefore, orb_false_r.
      destruct (semver.isDigit c) eqn:Hc; [|reflexivity].
      now destruct (matchHere_at_digit c (before +:+ semver.m0 m +:+ after) Hc).
Qed.


(** X27. Whether a version is found in the text the tool prints depends on
    digits alone: a cleaned text without any digit gives the error "expected
    string that includes semver formatted version but got", and a text with
    a digit always matches the pattern; what is matched is then handed to
    the version parser. Nothing more is run. *)
Theorem version_text_needs_a_digit (k : kustomize) (w w' : World) (verStr : string) :
  versionWithBinaryPath k w = (inr verStr, w') →
  if hasDigit verStr
  then ∃ m, semver.FindStringSubmatch verStr = Some m
            ∧ getSemver k w = (semver.NewVersion (semver.m0 m), w')
  else getSemver k w = (inl (semVerRegexNoMatch verStr), w').
Proof.
  intros Hrun. unfold getSemver. rewrite Hrun.
  destruct (hasDigit verStr) eqn:Hd.
  - destruct (semver.FindStringSubmatch verStr) as [m|] eqn:Hm.
    + now exists m.
    + apply FindStringSubmatch_None in Hm. congruence.
  - apply FindStringSubmatch_None in Hd. now rewrite Hd.
Qed.

End Coverage.

(** * Concrete runs, with the test double *)

#[local] Existing Instance Fake.collaborators.

(** ** Small runs of the functions *)

Example cleaned_version_text :
  (versionWithBinaryPath Fake.app
     (Fake.worldOf {[ "$ kustomize version --short" := shortVersionOutput "kustomize" ]}
                   None)).1
  = inr "v3.8.1 2020-07-16T00:58:46Z".
Proof. vm_compute. reflexivity. Qed.

Example pattern_with_prerelease_and_metadata :
  semver.FindStringSubmatch "kustomize/v4.5.7-rc.1+build.5 2022"
  = Some {| semver.m0 := "v4.5.7-rc.1+build.5"; semver.m1 := "4"; semver.m2 := ".5";
            semver.m3 := ".7"; semver.m5 := "rc.1"; semver.m8 := "build.5" |}.
Proof. vm_compute. reflexivity. Qed.

Example pattern_needs_a_digit :
  semver.FindStringSubmatch "version unknown" = None.
Proof. vm_compute. reflexivity. Qed.

Example thresholds_parse :
  semver.NewVersion "v3.7.0" = inr semver.v3_7_0
  ∧ semver.NewVersion "v3.8.5" = inr semver.v3_8_5
  ∧ semver.NewVersion "v5.3.0" = inr semver.v5_3_0
  ∧ semver.NewVersion "v99.99.99" = inr unknownVersion.
Proof. vm_compute. auto. Qed.

Example labels_below_v3_8_5 :
  (mapToEditAddArgs Fake.labels (Fake.worldOf ∅ (Some v3_8_1))).1 = ["a:1,b:2"].
Proof. vm_compute. reflexivity. Qed.

Example labels_from_v3_8_5 :
  (mapToEditAddArgs Fake.labels (Fake.worldOf ∅ (Some semver.v3_8_5))).1 = ["a:1"; "b:2"].
Proof. vm_compute. reflexivity. Qed.

Example redact_everywhere :
  redact Fake.app "cd /repo/app && kustomize build /repo" = "cd ./app && kustomize build .".
Proof. vm_compute. reflexivity. Qed.

(** Two containers, and an [image] key under a key that is not a container
    list: only the containers are found. *)
Example scan_of_a_pod :
  getImageParameters
    [ {[ "spec" := VMap {[ "containers" :=
                             VSlice [VMap {[ "image" := VString "b" ]};
                                     VMap {[ "image" := VString "a" ]}] ]};
         "extra" := VMap {[ "image" := VString "c" ]} ]} ]
  = ["a"; "b"].
Proof. vm_compute. reflexivity. Qed.

(** ** Runs of the properties *)


(** A run for C1: two labels with the version 3.8.1 in [semVer]. *)
Lemma mapToEditAddArgs_by_version_witness :
  let w := Fake.worldOf ∅ (Some v3_8_1) in
  Fake.labels ≠ ∅
  ∧ ∃ pairs, pairs ≡ₚ map_to_list Fake.labels ∧ pairs ≠ [] ∧
      (mapToEditAddArgs Fake.labels w).1 = [String.concat "," (map pairArg pairs)].
Proof.
  intros w.
  assert (Fake.labels ≠ ∅) as Hne by apply insert_non_empty.
  split; [exact Hne|].
  exact (mapToEditAddArgs_by_version Fake.labels w Hne).
Defined.

(** A run for C2: a name prefix and a patch, in a directory without
    kustomization file. The prefix command is run and recorded, then the
    patches step fails; [Build] returns the error alone. *)
Lemma Build_failure_returns_only_the_error_witness :
  let result := (Build Fake.app (Some Fake.prefixAndPatch) None None None
                       (Fake.worldOf ∅ None)).1 in
  resErr result = Some "kustomization file not found in the path"
  ∧ resObjs result = [] ∧ resImages result = [] ∧ resCommands result = [].
Proof.
  intros result.
  assert (resErr result = Some "kustomization file not found in the path") as Herr
    by (vm_compute; reflexivity).
  split; [exact Herr|].
  exact (proj2 (Build_failure_returns_only_the_error _ _ _ _ _ _ _ Herr)).
Defined.

(** Against C2 as stated: the entry recorded before the failing step is not in
    the returned command log. *)
Lemma Build_failure_drops_the_command_log :
  let run := buildBody Fake.app (Some Fake.prefixAndPatch) None None None
                       (initialState (Fake.worldOf ∅ None)) in
  let result := (Build Fake.app (Some Fake.prefixAndPatch) None None None
                       (Fake.worldOf ∅ None)).1 in
  run.1 = inl "kustomization file not found in the path"
  ∧ commands run.2 = ["kustomize edit set nameprefix -- dev-"]
  ∧ resErr result = Some "kustomization file not found in the path"
  ∧ ¬ (∀ entry, entry ∈ commands run.2 → entry ∈ resCommands result).
Proof.
  intros run result.
  assert (commands run.2 = ["kustomize edit set nameprefix -- dev-"]) as Hc
    by (vm_compute; reflexivity).
  assert (resCommands result = []) as Hr by (vm_compute; reflexivity).
  split; [vm_compute; reflexivity|]. split; [exact Hc|].
  split; [vm_compute; reflexivity|].
  intros Hall. specialize (Hall "kustomize edit set nameprefix -- dev-").
  rewrite Hc, Hr in Hall. apply (not_elem_of_nil _ (Hall (list_elem_of_here _ _))).
Qed.

(** A run for C3: one patch merged into a kustomization that holds two. *)
Lemma patches_are_appended_witness :
  let st := initialState (Fake.worldOf Fake.withDescriptor None) in
  let file := findKustomizeFile (path Fake.app) (sys (world st)) in
  let kustomizationPath := filepath_Join (path Fake.app) file in
  Patches Fake.prefixAndPatch ≠ []
  ∧ file ≠ ""
  ∧ os_ReadFile kustomizationPath (sys (world st)) = inr "patches: [q1, q2]"
  ∧ yaml_Unmarshal "patches: [q1, q2]" = inr (VMap Fake.existingPatches)
  ∧ (∃ qs, Fake.existingPatches !! "patches" = Some (VSlice qs))
  ∧ ∃ kMap',
      mergePatches Fake.existingPatches (Patches Fake.prefixAndPatch) = inr kMap'
      ∧ kMap' !! "patches"
        = Some (VSlice [VString "q1"; VString "q2"; VPatch (OpaquePatch "p1")]).
Proof.
  intros st file kustomizationPath.
  assert (Patches Fake.prefixAndPatch ≠ []) as H1 by discriminate.
  assert (file ≠ "") as H2 by (vm_compute; discriminate).
  assert (os_ReadFile kustomizationPath (sys (world st)) = inr "patches: [q1, q2]") as H3
    by (vm_compute; reflexivity).
  assert (yaml_Unmarshal "patches: [q1, q2]" = inr (VMap Fake.existingPatches)) as H4
    by reflexivity.
  assert (∃ qs, Fake.existingPatches !! "patches" = Some (VSlice qs)) as H5
    by (eexists; reflexivity).
  repeat (split; [assumption|]).
  destruct (patches_are_appended Fake.app Fake.prefixAndPatch st _ _ H1 H2 H3 H4
              (or_intror H5)) as (kMap' & Hmerge & Hpatches & _).
  exists kMap'. split; [exact Hmerge | exact Hpatches].
Defined.

(** A run for C4: one component and nothing else, with the version 3.6.0 in
    [semVer]: the build fails without a single invocation. *)
Lemma components_require_v3_7_0_witness :
  let opts := Fake.optionalComponent in
  let w := Fake.worldOf ∅ (Some Fake.v3_6_0) in
  let st0 := (buildEnviron Fake.app None (initialState w)).2 in
  let st := (stepsBeforeComponents Fake.app opts None st0).2 in
  Components opts ≠ []
  ∧ buildEnviron Fake.app None (initialState w) = (inr [], st0)
  ∧ stepsBeforeComponents Fake.app opts None st0 = (inr tt, st)
  ∧ semver.LessThan (getSemverSafe Fake.app (world st)).1 semver.v3_7_0 = true
  ∧ resErr (Build Fake.app (Some opts) None None None w).1 = Some componentsNotSupported
  ∧ invocations (Build Fake.app (Some opts) None None None w).2 = [].
Proof.
  intros opts w st0 st.
  assert (Components opts ≠ []) as H1 by discriminate.
  assert (buildEnviron Fake.app None (initialState w) = (inr [], st0)) as H2
    by reflexivity.
  assert (stepsBeforeComponents Fake.app opts None st0 = (inr tt, st)) as H3
    by reflexivity.
  assert (semver.LessThan (getSemverSafe Fake.app (world st)).1 semver.v3_7_0 = true) as H4
    by reflexivity.
  repeat (split; [assumption|]).
  destruct (components_require_v3_7_0 Fake.app opts None None None w [] st0 st
              H1 H2 H3 H4) as [Hres Hinv].
  split; [now rewrite Hres | exact Hinv].
Defined.

(** Against C4 as stated: with a name prefix besides the component, the prefix
    command has been run when the build fails for the version. *)
Lemma components_check_comes_after_other_invocations :
  let w := Fake.worldOf ∅ (Some Fake.v3_6_0) in
  let result := Build Fake.app (Some Fake.prefixAndComponent) None None None w in
  Components Fake.prefixAndComponent ≠ []
  ∧ semVer w = Some Fake.v3_6_0
  ∧ resErr result.1 = Some componentsNotSupported
  ∧ invocations result.2
    = [withDir (Command "kustomize" ["edit"; "set"; "nameprefix"; "--"; "dev-"])
               "/repo/app"]
  ∧ length (invocations result.2) ≠ 0.
Proof.
  intros w result. split; [discriminate|]. split; [reflexivity|].
  split; [vm_compute; reflexivity|]. split; [vm_compute; reflexivity|].
  vm_compute. discriminate.
Qed.

(** A run for C8: the build command of the application at [/repo/app] is logged
    relative to the repository root. *)
Lemma Build_redacts_repoRoot_witness :
  let w := Fake.worldOf ∅ None in
  repoRoot Fake.app ≠ ""
  ∧ resErr (Build Fake.app None None None None w).1 = None
  ∧ commands (buildBody Fake.app None None None None (initialState w)).2
    = ["kustomize build /repo/app"]
  ∧ Forall2 (Replaced "/repo" ".") ["kustomize build /repo/app"]
            (resCommands (Build Fake.app None None None None w).1)
  ∧ resCommands (Build Fake.app None None None None w).1 = ["kustomize build ./app"].
Proof.
  intros w.
  assert (repoRoot Fake.app ≠ "") as H1 by discriminate.
  assert (resErr (Build Fake.app None None None None w).1 = None) as H2
    by (vm_compute; reflexivity).
  split; [exact H1|]. split; [exact H2|].
  split; [vm_compute; reflexivity|].
  split; [|vm_compute; reflexivity].
  exact (Build_redacts_repoRoot Fake.app None None None None w H1 H2).
Defined.

(** A run for C9: the only component is missing and may be skipped; the command
    is run without any path. *)
Lemma components_all_missing_still_invoked_witness :
  let opts := Fake.optionalComponent in
  let w := Fake.worldOf ∅ (Some v3_8_1) in
  let st0 := (buildEnviron Fake.app None (initialState w)).2 in
  let st := (stepsBeforeComponents Fake.app opts None st0).2 in
  let final := (buildBody Fake.app (Some opts) None None None (initialState w)).2 in
  Components opts ≠ []
  ∧ IgnoreMissingComponents opts = true
  ∧ buildEnviron Fake.app None (initialState w) = (inr [], st0)
  ∧ stepsBeforeComponents Fake.app opts None st0 = (inr tt, st)
  ∧ semver.LessThan (getSemverSafe Fake.app (world st)).1 semver.v3_7_0 = false
  ∧ os_OpenRoot (repoRoot Fake.app) (sys (getSemverSafe Fake.app (world st)).2)
    = (None, ∅)
  ∧ Forall (fun c =>
              ∃ resolvedPath,
                filepath_Rel (repoRoot Fake.app) (filepath_Join (path Fake.app) c)
                = inr resolvedPath
                ∧ is_Some (Root_Stat (repoRoot Fake.app) resolvedPath ∅))
           (Components opts)
  ∧ ∃ later laterEntries,
      invocations (world final)
      = withEnv (editCommand Fake.app ["edit"; "add"; "component"]) [] :: later
      ∧ commands final = "kustomize edit add component" :: laterEntries.
Proof.
  intros opts w st0 st final.
  assert (Components opts ≠ []) as H1 by discriminate.
  assert (IgnoreMissingComponents opts = true) as H2 by reflexivity.
  assert (buildEnviron Fake.app None (initialState w) = (inr [], st0)) as H3
    by reflexivity.
  assert (stepsBeforeComponents Fake.app opts None st0 = (inr tt, st)) as H4
    by reflexivity.
  assert (semver.LessThan (getSemverSafe Fake.app (world st)).1 semver.v3_7_0 = false)
    as H5 by reflexivity.
  assert (os_OpenRoot (repoRoot Fake.app) (sys (getSemverSafe Fake.app (world st)).2)
          = (None, ∅)) as H6 by reflexivity.
  assert (Forall (fun c =>
              ∃ resolvedPath,
                filepath_Rel (repoRoot Fake.app) (filepath_Join (path Fake.app) c)
                = inr resolvedPath
                ∧ is_Some (Root_Stat (repoRoot Fake.app) resolvedPath ∅))
           (Components opts)) as H7.
  { repeat constructor. eexists. split; [reflexivity|]. vm_compute. eauto. }
  repeat (split; [assumption|]).
  destruct (components_all_missing_still_invoked Fake.app opts None None None w []
              st0 st ∅ H1 H2 H3 H4 H5 H6 H7) as [_ Hrun].
  exact Hrun.
Defined.

(** Against C10 as stated: the [image] field of a mapping held by the key
    [containers] is not collected. *)
Lemma image_under_containers_mapping_not_collected :
  let object : gmap string any :=
    {[ "containers" := VMap {[ "image" := VString "nginx" ]} ]} in
  getImages object = [] ∧ "nginx" ∉ getImages object.
Proof.
  intros object.
  assert (getImages object = []) as Hnone by (vm_compute; reflexivity).
  split; [exact Hnone|]. rewrite Hnone. apply not_elem_of_nil.
Qed.

(** ** Runs of the further properties *)

(** A prefix, an image, a replica count and a namespace, with the version
    3.8.1 known, in a world where the image command fails: the prefix and
    the image commands are run, the other two are not. *)
Lemma edits_run_in_order_until_failure_witness :
  let st := initialState
              (Fake.worldOf {[ "! kustomize edit set image nginx:1.2" := "no such image" ]}
                            (Some v3_8_1)) in
  let replicas := ["edit"; "set"; "replicas"; "web=3"] in
  Patches Inputs.edits = []
  ∧ replicaArgs (Replicas Inputs.edits) ["edit"; "set"; "replicas"] = inr replicas
  ∧ semVer (world st) = Some v3_8_1
  ∧ map GetCommandArgsToLog (plannedEdits Fake.app Inputs.edits None v3_8_1 replicas)
    = ["kustomize edit set nameprefix -- dev-"; "kustomize edit set image nginx:1.2";
       "kustomize edit set replicas web=3"; "kustomize edit set namespace -- prod"]
  ∧ (stepsBeforeComponents Fake.app Inputs.edits None st).1 = inl "no such image"
  ∧ commands (stepsBeforeComponents Fake.app Inputs.edits None st).2
    = ["kustomize edit set nameprefix -- dev-"; "kustomize edit set image nginx:1.2"]
  ∧ ∃ ran rest before failing,
      plannedEdits Fake.app Inputs.edits None v3_8_1 replicas = ran ++ rest
      ∧ invocations (world (stepsBeforeComponents Fake.app Inputs.edits None st).2)
        = invocations (world st) ++ ran
      ∧ ran = before ++ [failing]
      ∧ allSucceed before (sys (world st))
      ∧ (executil_Run failing (sysAfter before (sys (world st)))).1 = inl "no such image".
Proof.
  intros st replicas.
  assert (Patches Inputs.edits = []) as H1 by reflexivity.
  assert (replicaArgs (Replicas Inputs.edits) ["edit"; "set"; "replicas"] = inr replicas)
    as H2 by (vm_compute; reflexivity).
  assert (semVer (world st) = Some v3_8_1) as H3 by reflexivity.
  repeat (split; [assumption|]).
  split; [vm_compute; reflexivity|].
  assert ((stepsBeforeComponents Fake.app Inputs.edits None st).1 = inl "no such image")
    as Herr by (vm_compute; reflexivity).
  split; [exact Herr|].
  split; [vm_compute; reflexivity|].
  destruct (edits_run_in_order_until_failure Fake.app Inputs.edits None v3_8_1 replicas st
              H1 H2 H3) as (ran & rest & Hplan & Hinv & _ & _ & Hres).
  rewrite Herr in Hres. destruct Hres as (before & failing & Hran & Hbefore & Hfail).
  exists ran, rest, before, failing.
  repeat (split; [assumption|]). exact Hfail.
Defined.

(** The count of the second replica is a text the double cannot resolve. *)
Lemma unresolved_replica_runs_nothing_witness :
  let st := initialState (Fake.worldOf ∅ None) in
  let web := {| replicaName := "web"; replicaCount := FromInt 3 |} in
  let db := {| replicaName := "db"; replicaCount := FromString "many" |} in
  let cache := {| replicaName := "cache"; replicaCount := FromInt 1 |} in
  Replicas Inputs.unresolvedReplica = [web] ++ db :: [cache]
  ∧ Forall (fun r => ∃ count, GetIntCount r = inr count) [web]
  ∧ GetIntCount db = inl "expected integer value for count"
  ∧ stepReplicas Fake.app Inputs.unresolvedReplica st
    = (inl "expected integer value for count", st).
Proof.
  intros st web db cache.
  assert (Replicas Inputs.unresolvedReplica = [web] ++ db :: [cache]) as H1 by reflexivity.
  assert (Forall (fun r => ∃ count, GetIntCount r = inr count) [web]) as H2
    by (repeat constructor; eexists; reflexivity).
  assert (GetIntCount db = inl "expected integer value for count") as H3 by reflexivity.
  repeat (split; [assumption|]).
  exact (unresolved_replica_runs_nothing Fake.app Inputs.unresolvedReplica st
           [web] [cache] db _ H1 H2 H3).
Defined.

(** Two counts that resolve. *)
Lemma resolved_replicas_in_order_witness :
  let web := {| replicaName := "web"; replicaCount := FromInt 3 |} in
  let cache := {| replicaName := "cache"; replicaCount := FromInt 1 |} in
  Forall2 (fun r count => GetIntCount r = inr count) [web; cache] [3%Z; 1%Z]
  ∧ replicaArgs [web; cache] ["edit"; "set"; "replicas"]
    = inr ["edit"; "set"; "replicas"; "web=3"; "cache=1"].
Proof.
  intros web cache.
  assert (Forall2 (fun r count => GetIntCount r = inr count) [web; cache] [3%Z; 1%Z])
    as H1 by (repeat constructor).
  split; [exact H1|].
  exact (resolved_replicas_in_order [web; cache] [3%Z; 1%Z] ["edit"; "set"; "replicas"] H1).
Defined.

(** Of the components [base] and [extra], only [extra] exists. *)
Lemma found_components_are_the_existing_ones_witness :
  let st := initialState (Fake.worldOf Inputs.onlyExtra None) in
  Forall (fun c => ∃ resolvedPath,
            filepath_Rel (repoRoot Fake.app) (filepath_Join (path Fake.app) c)
            = inr resolvedPath)
         ["base"; "extra"]
  ∧ List.filter (componentFound Fake.app (sys (world st))) ["base"; "extra"] = ["extra"]
  ∧ ∃ st', foundComponentsLoop Fake.app ["base"; "extra"] [] st = (inr ["extra"], st')
           ∧ sameButLogs st st'.
Proof.
  intros st.
  assert (Forall (fun c => ∃ resolvedPath,
            filepath_Rel (repoRoot Fake.app) (filepath_Join (path Fake.app) c)
            = inr resolvedPath)
         ["base"; "extra"]) as H1 by (repeat constructor; eexists; reflexivity).
  split; [exact H1|]. split; [vm_compute; reflexivity|].
  exact (found_components_are_the_existing_ones Fake.app ["base"; "extra"] [] st H1).
Defined.

(** Without [IgnoreMissingComponents] both components are passed on, though
    [base] does not exist. *)
Lemma components_passed_unchecked_witness :
  let opts := Inputs.twoComponents false in
  let st := initialState (Fake.worldOf Inputs.onlyExtra (Some v3_8_1)) in
  Components opts ≠ []
  ∧ IgnoreMissingComponents opts = false
  ∧ semver.LessThan (getSemverSafe Fake.app (world st)).1 semver.v3_7_0 = false
  ∧ commands (stepComponents Fake.app opts [] st).2
    = ["kustomize edit add component base extra"].
Proof.
  intros opts st.
  assert (Components opts ≠ []) as H1 by discriminate.
  assert (IgnoreMissingComponents opts = false) as H2 by reflexivity.
  assert (semver.LessThan (getSemverSafe Fake.app (world st)).1 semver.v3_7_0 = false)
    as H3 by reflexivity.
  repeat (split; [assumption|]).
  rewrite (components_passed_unchecked Fake.app opts [] st H1 H2 H3).
  reflexivity.
Defined.

(** No version is known and two labels are set, for an application with a
    binary of its own. *)
Lemma labels_ask_the_default_binary_witness :
  let st := initialState (Fake.worldOf ∅ None) in
  CommonLabels Inputs.labelled ≠ ∅
  ∧ semVer (world st) = None
  ∧ ∃ args,
      invocations (world (stepCommonLabels Inputs.customBinary Inputs.labelled None st).2)
      = [Command "kustomize" ["version"; "--short"];
         withDir (Command "/opt/kustomize" ("edit" :: "add" :: "label" :: args))
                 "/repo/app"].
Proof.
  intros st.
  assert (CommonLabels Inputs.labelled ≠ ∅) as H1 by apply insert_non_empty.
  assert (semVer (world st) = None) as H2 by reflexivity.
  repeat (split; [assumption|]).
  exact (labels_ask_the_default_binary Inputs.customBinary Inputs.labelled None st H1 H2).
Defined.

(** The tool is not installed: the version falls back to v99.99.99. *)
Lemma fallback_version_opens_every_gate_witness :
  let w := Fake.worldOf {[ "! kustomize version --short" := "executable not found" ]} None in
  semVer w = None
  ∧ (getSemver Fake.app w).1
    = inl "could not get kustomize version: executable not found"
  ∧ (getSemverSafe Fake.app w).1 = unknownVersion
  ∧ semver.LessThan (getSemverSafe Fake.app w).1 semver.v3_7_0 = false.
Proof.
  intros w.
  assert (semVer w = None) as H1 by reflexivity.
  assert (getSemver Fake.app w
          = (inl "could not get kustomize version: executable not found",
             (getSemver Fake.app w).2)) as H2 by (vm_compute; reflexivity).
  split; [exact H1|]. split; [now rewrite H2|].
  destruct (fallback_version_opens_every_gate Fake.app w _ _ H1 H2) as (Hv & H37 & _).
  split; [exact Hv | exact H37].
Defined.

(** The two arrangements of the images of a pod and of a deployment. *)
Lemma image_list_ignores_visit_order_witness :
  ["nginx"; "busybox"] ≡ₚ flat_map getImages [Inputs.deployment; Inputs.pod]
  ∧ sort_Strings ["nginx"; "busybox"] = getImageParameters [Inputs.deployment; Inputs.pod]
  ∧ getImageParameters [Inputs.deployment; Inputs.pod] = ["busybox"; "nginx"].
Proof.
  assert (["nginx"; "busybox"] ≡ₚ flat_map getImages [Inputs.deployment; Inputs.pod]) as H1.
  { change (flat_map getImages [Inputs.deployment; Inputs.pod]) with ["busybox"; "nginx"].
    apply Permutation_swap. }
  split; [exact H1|].
  split; [|vm_compute; reflexivity].
  exact (image_list_ignores_visit_order [Inputs.deployment; Inputs.pod] _ H1).
Defined.

(** The pod before or after the deployment. *)
Lemma image_list_ignores_object_order_witness :
  [Inputs.pod; Inputs.deployment] ≡ₚ [Inputs.deployment; Inputs.pod]
  ∧ getImageParameters [Inputs.pod; Inputs.deployment]
    = getImageParameters [Inputs.deployment; Inputs.pod].
Proof.
  assert ([Inputs.pod; Inputs.deployment] ≡ₚ [Inputs.deployment; Inputs.pod]) as H1
    by apply Permutation_swap.
  split; [exact H1|].
  exact (image_list_ignores_object_order _ _ H1).
Defined.

(** A list of init containers added to a pod. *)
Lemma getImages_insert_witness :
  let added := VSlice [VMap {[ "image" := VString "busybox" ]}] in
  Inputs.pod !! "initContainers" = None
  ∧ getImages (<[ "initContainers" := added ]> Inputs.pod)
    ≡ₚ ["busybox"] ++ getImages Inputs.pod.
Proof.
  intros added.
  assert (Inputs.pod !! "initContainers" = None) as H1 by (vm_compute; reflexivity).
  split; [exact H1|].
  exact (getImages_insert "initContainers" added Inputs.pod H1).
Defined.

(** The entry of the patches step does not name the repository root. *)
Lemma redact_without_root_witness :
  repoRoot Fake.app ≠ ""
  ∧ (∀ p q, patchesCommandEntry ≠ p +:+ repoRoot Fake.app +:+ q)
  ∧ redact Fake.app patchesCommandEntry = patchesCommandEntry.
Proof.
  assert (repoRoot Fake.app ≠ "") as H1 by discriminate.
  assert (∀ p q, patchesCommandEntry ≠ p +:+ repoRoot Fake.app +:+ q) as H2.
  { intros p q Heq. destruct (index_of_instance "/repo" p q) as [n Hn].
    change "/repo" with (repoRoot Fake.app) in Hn at 2.
    rewrite <- Heq in Hn. vm_compute in Hn. discriminate. }
  split; [exact H1|]. split; [exact H2|].
  exact (redact_without_root Fake.app patchesCommandEntry H1 H2).
Defined.

(** The text the tool prints for its version. *)
Lemma version_is_read_at_the_first_digit_witness :
  let s := "{kustomize/v3.8.1  2020-07-16T00:58:46Z  }" in
  ∃ m, semver.FindStringSubmatch s = Some m
       ∧ semver.m0 m = "v3.8.1"
       ∧ ∃ before after, s = before +:+ semver.m0 m +:+ after
                         ∧ hasDigit before = false.
Proof.
  intros s.
  destruct (semver.FindStringSubmatch s) as [m|] eqn:Hm; [|vm_compute in Hm; discriminate].
  exists m. split; [reflexivity|].
  split; [vm_compute in Hm; injection Hm as <-; reflexivity|].
  destruct (version_is_read_at_the_first_digit s m Hm) as (before & after & Hs & Hd & _).
  exists before, after. split; [exact Hs | exact Hd].
Defined.

(** A patch for a directory without kustomization file. *)
Lemma patches_need_a_kustomization_file_witness :
  let st := initialState (Fake.worldOf ∅ None) in
  Patches Fake.prefixAndPatch ≠ []
  ∧ Forall (fun name =>
              ∃ err, os_Stat (filepath_Join (path Fake.app) name) (sys (world st)) = inl err)
           KustomizationNames
  ∧ stepPatches Fake.app Fake.prefixAndPatch st
    = (inl "kustomization file not found in the path", st).
Proof.
  intros st.
  assert (Patches Fake.prefixAndPatch ≠ []) as H1 by discriminate.
  assert (Forall (fun name =>
              ∃ err, os_Stat (filepath_Join (path Fake.app) name) (sys (world st)) = inl err)
           KustomizationNames) as H2 by (repeat constructor; eexists; reflexivity).
  repeat (split; [assumption|]).
  exact (patches_need_a_kustomization_file Fake.app Fake.prefixAndPatch st H1 H2).
Defined.

(** A patch merged into the kustomization file of the application: the
    file is written, the entry is recorded and no command is run. *)
Lemma patches_step_runs_no_command_witness :
  let st := initialState (Fake.worldOf Fake.withDescriptor None) in
  (stepPatches Fake.app Fake.prefixAndPatch st).1 = inr tt
  ∧ commands (stepPatches Fake.app Fake.prefixAndPatch st).2 = [patchesCommandEntry]
  ∧ invocations (world (stepPatches Fake.app Fake.prefixAndPatch st).2) = [].
Proof.
  intros st.
  split; [vm_compute; reflexivity|]. split; [vm_compute; reflexivity|].
  exact (proj1 (patches_step_runs_no_command Fake.app Fake.prefixAndPatch st)).
Defined.

(** A build without customization: one command, run from the root. *)
Lemma successful_build_ends_with_build_witness :
  let w := Fake.worldOf ∅ None in
  resErr (Build Fake.app None None None None w).1 = None
  ∧ ∃ cmd rest earlier,
      Args cmd = getBinaryPath Fake.app :: "build" :: path Fake.app :: rest
      ∧ Dir cmd = repoRoot Fake.app
      ∧ invocations (Build Fake.app None None None None w).2
        = invocations w ++ earlier ++ [cmd].
Proof.
  intros w.
  assert (resErr (Build Fake.app None None None None w).1 = None) as H1
    by (vm_compute; reflexivity).
  split; [exact H1|].
  destruct (successful_build_ends_with_build Fake.app None None None None w H1)
    as (cmd & rest & s & out & earlier & entries & Hargs & Hdir & Hinv & _).
  exists cmd, rest, earlier. repeat split; assumption.
Defined.

(** The credentials of the double resolve to nothing. *)
Lemma environment_needs_only_the_credentials_witness :
  let st := initialState (Fake.worldOf ∅ None) in
  Creds_Environ (creds Fake.app) (sys (world st)) = (inr [], ∅)
  ∧ ∃ st', buildEnviron Fake.app (Some ["A=1"]) st = (inr ["A=1"], st')
           ∧ commands st' = commands st
           ∧ deferred st' = Closer_Close (creds Fake.app) :: deferred st.
Proof.
  intros st.
  assert (Creds_Environ (creds Fake.app) (sys (world st)) = (inr [], ∅)) as H1
    by reflexivity.
  split; [exact H1|].
  destruct (environment_needs_only_the_credentials Fake.app (Some ["A=1"]) st [] ∅ H1)
    as (st' & Hrun & _ & _ & _ & Hc & Hd).
  exists st'. split; [exact Hrun|]. split; [exact Hc | exact Hd].
Defined.

(** The credentials cannot be resolved: nothing is run. *)
Lemma credentials_failure_runs_nothing_witness :
  let C := Inputs.noCredentials in
  let k := Inputs.app C tt in
  let w := Inputs.worldOf C ∅ None in
  Creds_Environ (creds k) (sys w) = (inl "no credentials", ∅)
  ∧ resErr (Build k (Some Inputs.edits) None None None w).1 = Some "no credentials"
  ∧ invocations (Build k (Some Inputs.edits) None None None w).2 = [].
Proof.
  intros C k w.
  assert (Creds_Environ (creds k) (sys w) = (inl "no credentials", ∅)) as H1
    by reflexivity.
  split; [exact H1|].
  rewrite (credentials_failure_runs_nothing k (Some Inputs.edits) None None None w _ _ H1).
  split; reflexivity.
Defined.

(** The credentials are written to a file, which is gone when the build
    returns, here with the error of the patches step. *)
Lemma credentials_always_released_witness :
  let C := Inputs.withCredentials in
  let k := Inputs.app C tt in
  let w := Inputs.worldOf C ∅ None in
  Creds_Environ (creds k) (sys w)
  = (inr ["GIT_ASKPASS=argocd"], {[ "/tmp/creds" := "secret" ]})
  ∧ resErr (Build k (Some Fake.prefixAndPatch) None None None w).1
    = Some "kustomization file not found in the path"
  ∧ ∃ s', sys (Build k (Some Fake.prefixAndPatch) None None None w).2
          = Closer_Close (creds k) s'.
Proof.
  intros C k w.
  assert (Creds_Environ (creds k) (sys w)
          = (inr ["GIT_ASKPASS=argocd"], {[ "/tmp/creds" := "secret" ]})) as H1
    by reflexivity.
  split; [exact H1|]. split; [vm_compute; reflexivity|].
  exact (credentials_always_released k (Some Fake.prefixAndPatch) None None None w _ _ H1).
Defined.

(** The application lies outside the repository root: its component cannot
    be made relative to the root. *)
Lemma unresolvable_component_path_fails_witness :
  let C := Inputs.strictPaths in
  let k := @mkKustomize C "/repo" "/elsewhere" tt "" "" "" "" in
  let st := initialState (Inputs.worldOf C ∅ None) in
  Forall (fun c => ∃ resolvedPath,
            filepath_Rel (repoRoot k) (filepath_Join (path k) c) = inr resolvedPath)
         []
  ∧ filepath_Rel (repoRoot k) (filepath_Join (path k) "base")
    = inl "Rel: can't make the path relative to the root"
  ∧ ∃ st',
      foundComponentsLoop k ([] ++ "base" :: ["extra"]) [] st
      = (inl "kustomize components path failed: Rel: can't make the path relative to the root",
         st')
      ∧ sameButLogs st st'.
Proof.
  intros C k st.
  assert (Forall (fun c => ∃ resolvedPath,
            filepath_Rel (repoRoot k) (filepath_Join (path k) c) = inr resolvedPath)
         []) as H1 by constructor.
  assert (filepath_Rel (repoRoot k) (filepath_Join (path k) "base")
          = inl "Rel: can't make the path relative to the root") as H2 by reflexivity.
  repeat (split; [assumption|]).
  exact (unresolvable_component_path_fails k [] ["extra"] [] "base" _ st H1 H2).
Defined.

(** The repository root cannot be opened: the close of the root that was not
    opened is the one deferred call of the step. *)
Lemma unopened_root_is_closed_unchecked_witness :
  let C := Inputs.closedRoot in
  let k := Inputs.app C tt in
  let opts := Inputs.twoComponents true in
  let st := initialState (Inputs.worldOf C ∅ (Some v3_8_1)) in
  Components opts ≠ []
  ∧ IgnoreMissingComponents opts = true
  ∧ semver.LessThan (getSemverSafe k (world st)).1 semver.v3_7_0 = false
  ∧ os_OpenRoot (repoRoot k) (sys (getSemverSafe k (world st)).2)
    = (Some "permission denied", ∅)
  ∧ (stepComponents k opts [] st).1
    = inl "failed to open the repo folder: permission denied"
  ∧ invocations (world (stepComponents k opts [] st).2) = []
  ∧ deferred (stepComponents k opts [] st).2 = [io_Close_Root (repoRoot k) false].
Proof.
  intros C k opts st.
  assert (Components opts ≠ []) as H1 by discriminate.
  assert (IgnoreMissingComponents opts = true) as H2 by reflexivity.
  assert (semver.LessThan (getSemverSafe k (world st)).1 semver.v3_7_0 = false) as H3
    by reflexivity.
  assert (os_OpenRoot (repoRoot k) (sys (getSemverSafe k (world st)).2)
          = (Some "permission denied", ∅)) as H4 by reflexivity.
  repeat (split; [assumption|]).
  rewrite (unopened_root_is_closed_unchecked k opts [] st _ _ H1 H2 H3 H4).
  repeat split.
Defined.

(** A kustomization file whose [patches] field is null. *)
Lemma patches_field_must_be_a_sequence_witness :
  let C := Inputs.nullDescriptor in
  let k := Inputs.app C tt in
  let st := initialState
              (Inputs.worldOf C {[ "/repo/app/kustomization.yaml" := "patches:" ]} None) in
  let file := findKustomizeFile (path k) (sys (world st)) in
  Patches Fake.prefixAndPatch ≠ []
  ∧ file ≠ ""
  ∧ os_ReadFile (filepath_Join (path k) file) (sys (world st)) = inr "patches:"
  ∧ yaml_Unmarshal "patches:" = inr (VMap {[ "patches" := VNil ]})
  ∧ ({[ "patches" := VNil ]} : gmap string any) !! "patches" = Some VNil
  ∧ (∀ l, VNil ≠ VSlice l)
  ∧ stepPatches k Fake.prefixAndPatch st
    = (inl "expected 'patches' field in kustomization.yaml to be []any, but got <nil>", st).
Proof.
  intros C k st file.
  assert (Patches Fake.prefixAndPatch ≠ []) as H1 by discriminate.
  assert (file ≠ "") as H2 by (vm_compute; discriminate).
  assert (os_ReadFile (filepath_Join (path k) file) (sys (world st)) = inr "patches:") as H3
    by (vm_compute; reflexivity).
  assert (yaml_Unmarshal "patches:" = inr (VMap {[ "patches" := VNil ]})) as H4
    by reflexivity.
  assert (({[ "patches" := VNil ]} : gmap string any) !! "patches" = Some VNil) as H5
    by (vm_compute; reflexivity).
  assert (∀ l, VNil ≠ VSlice l) as H6 by discriminate.
  repeat (split; [assumption|]).
  exact (patches_field_must_be_a_sequence k Fake.prefixAndPatch st _ _ _ H1 H2 H3 H4 H5 H6).
Defined.

(** The tool prints a text without version. *)
Lemma version_text_needs_a_digit_witness :
  let w := Fake.worldOf {[ "$ kustomize version --short" := "{unknown}" ]} None in
  (versionWithBinaryPath Fake.app w).1 = inr "unknown"
  ∧ (getSemver Fake.app w).1 = inl (semVerRegexNoMatch "unknown").
Proof.
  intros w.
  assert (versionWithBinaryPath Fake.app w
          = (inr "unknown", (versionWithBinaryPath Fake.app w).2)) as H1
    by (vm_compute; reflexivity).
  split; [now rewrite H1|].
  now rewrite (version_text_needs_a_digit Fake.app w _ "unknown" H1).
Defined.
